(** * SFT: the semi-fungible token contract of massa-standards

    A shallow embedding of
    [smart-contracts/assembly/contracts/SFT/SFT.ts] and the properties of
    its ledger: minting under the supply cap, balance transfer, and the
    approval registry.

    The contract is AssemblyScript.  It keeps all of its state in the
    host's datastore, reached through [Storage.has/get/set/del], reads the
    caller from [Context.caller()] and reports through [generateEvent];
    a failed [assert] or [expect] aborts the call.  The embedding threads
    the datastore and the event log through a small state-and-abort
    monad; the caller is an explicit argument of the entry points.

    - [u64] is [N], and every operation on it wraps modulo 2^64.
    - The datastore is a finite map from byte strings to byte strings;
      the contract's string keys and byte-array keys live in the same
      key space, as in the host.
    - Serialized arguments are the sequence of typed values that [Args]
      was built from.  The decoders answer as the library does when the
      values are read with the types they were added with ([typed]); the
      library itself reads bytes and does not check the types.
    - [bytesToU64] answers as the library does on arrays of eight bytes.
      The contract decodes the counter and the maximum supply without
      looking whether they are stored; [supplyStored] says that the
      datastore holds both, as it does from the construction on.
    - An aborted computation returns the state it has reached; what the
      host keeps of it is decided where calls are chained ([commit]). *)

From Stdlib Require Import NArith ZArith Lia Ascii String List.
From stdpp Require Import base decidable option list strings pretty gmap fin_maps.

Local Open Scope string_scope.
Local Open Scope N_scope.

(** ** Primitive types *)

(** [u64]: an unsigned 64-bit integer, as [N] with the wrap-around of its
    arithmetic written out. *)
Abbreviation u64 := N (only parsing).

Definition U64_MODULUS : N := 2 ^ 64.
Definition U64_MAX : N := U64_MODULUS - 1.

Definition u64_add (a b : u64) : u64 := (a + b) mod U64_MODULUS.
Definition u64_sub (a b : u64) : u64 := (a + U64_MODULUS - b mod U64_MODULUS) mod U64_MODULUS.

(** [StaticArray<u8>]: a byte array, as a string of 8-bit characters.
    AssemblyScript strings are modelled by their UTF-8 bytes, so that
    [stringToBytes] and [bytesToString] are the identity. *)
Abbreviation bytes := string (only parsing).

Definition stringToBytes (s : string) : bytes := s.
Definition bytesToString (b : bytes) : string := b.

(** Little-endian digits in base 256. *)
Fixpoint le_encode (k : nat) (n : N) : bytes :=
  match k with
  | O => EmptyString
  | S k' => String (ascii_of_N (n mod 256)) (le_encode k' (n / 256))
  end.

Fixpoint le_decode (k : nat) (b : bytes) : N :=
  match k, b with
  | S k', String c b' => N_of_ascii c + 256 * le_decode k' b'
  | _, _ => 0
  end.

(** [u64ToBytes] stores the eight little-endian bytes of its argument;
    [bytesToU64] loads eight bytes from the start of the array.  The
    library's load does not check the length: on an array shorter than
    eight bytes (the empty value of an absent key) it reads what lies
    behind the array in memory, which no function of the array can tell.
    [le_decode] reads the bytes that are not there as zero, so
    [bytesToU64] is the library's function on arrays of eight bytes or
    more and a stand-in on shorter ones.  The balances are decoded behind
    [Storage.has]; the counter and the maximum supply are not, see
    [supplyStored]. *)
Definition u64ToBytes (n : u64) : bytes := le_encode 8 n.
Definition bytesToU64 (b : bytes) : u64 := le_decode 8 b.

(** [u64.toString()]: the decimal numeral. *)
Definition u64_toString (n : u64) : string := pretty n.

(** [String.split(',')]: the fields between the separators; the empty
    string has one (empty) field. *)
Fixpoint split (sep : ascii) (s : string) : list string :=
  match s with
  | EmptyString => [EmptyString]
  | String c s' =>
      if Ascii.eqb c sep then EmptyString :: split sep s'
      else match split sep s' with
           | [] => [String c EmptyString]
           | field :: fields => String c field :: fields
           end
  end.

(** [Array.includes] on strings. *)
Definition includes (l : list string) (x : string) : bool :=
  existsb (String.eqb x) l.

(** [Address]: a wrapper around the address string; the constructor does
    not validate it. *)
Record Address : Type := mkAddress { toString : string }.

(** ** The host: datastore and event log *)

Record Host : Type := mkHost {
  datastore : gmap string bytes;
  events : list string;
}.

Inductive Outcome (A : Type) : Type :=
| Ok (a : A)
| Abort (message : string).
Arguments Ok {A} a.
Arguments Abort {A} message.

(** A contract computation: it runs on a host state and leaves the state
    as it is when it returns or aborts (discarding the writes of an
    aborted call is the host's business). *)
Definition M (A : Type) : Type := Host -> Outcome A * Host.

Definition ret {A} (a : A) : M A := fun h => (Ok a, h).

Definition bind {A B} (m : M A) (f : A -> M B) : M B :=
  fun h =>
    match m h with
    | (Ok a, h') => f a h'
    | (Abort msg, h') => (Abort msg, h')
    end.

Definition abort {A} (msg : string) : M A := fun h => (Abort msg, h).

Notation "'let*' x ':=' m 'in' k" := (bind m (fun x => k))
  (at level 10, x name, m at level 100, k at level 200).
Notation "'let*' ' pat ':=' m 'in' k" :=
  (bind m (fun x => match x with pat => k end))
  (at level 10, pat pattern, m at level 100, k at level 200).
Notation "'do' m 'then' k" := (bind m (fun _ => k))
  (at level 10, m at level 100, k at level 200).

Definition assert (cond : bool) (msg : string) : M unit :=
  if cond then ret tt else abort msg.

(** [Result.expect]: unwrap, or abort.  The library's error reads the
    message, a colon and the decoder's own error; the embedding keeps the
    message of the contract, by which the aborts of the decoders are told
    apart. *)
Definition expect {A} (r : option A) (msg : string) : M A :=
  match r with
  | Some a => ret a
  | None => abort msg
  end.

Definition generateEvent (e : string) : M unit :=
  fun h => (Ok tt, mkHost (datastore h) (events h ++ [e])).

(** The datastore interface.  The repository's tests fix what the host
    does on an absent key: test 'approval' approves on a token without an
    approval entry (so [isApproved] reads an absent key), test 'transfer
    call' transfers a token without one (so [_removeApprovals] deletes an
    absent key), and test 'transferFrom' reads the entry it has just
    deleted and expects the empty string.  Hence [get] of an absent key is
    the empty value and [del] of an absent key does nothing. *)
Module Storage.

Definition has (key : string) : M bool :=
  fun h => (Ok (bool_decide (is_Some (datastore h !! key))), h).

Definition get (key : string) : M bytes :=
  fun h => (Ok (default EmptyString (datastore h !! key)), h).

Definition set (key : string) (value : bytes) : M unit :=
  fun h => (Ok tt, mkHost (<[key := value]> (datastore h)) (events h)).

Definition del (key : string) : M unit :=
  fun h => (Ok tt, mkHost (delete key (datastore h)) (events h)).

End Storage.

(** ** Serialized arguments

    [Args] is the argument buffer of as-types; the embedding keeps the
    sequence of values that were added instead of their bytes.
    [nextString] and [nextU64] consume the next value and fail when it is
    missing, as the library does at the end of the buffer.  The buffer
    itself is untyped: asked for a value of the other type than the one
    added, the library reads the bytes that are there as a length or as a
    number.  The embedding fails there instead, so it follows the library
    on the buffers that are read as they were built, see [typed]. *)
Inductive Arg : Type :=
| ArgString (s : string)
| ArgU64 (n : u64).

Abbreviation Args := (list Arg) (only parsing).

Definition nextString (args : Args) : option (string * Args) :=
  match args with
  | ArgString s :: rest => Some (s, rest)
  | _ => None
  end.

Definition nextU64 (args : Args) : option (u64 * Args) :=
  match args with
  | ArgU64 n :: rest => Some (n, rest)
  | _ => None
  end.

(** [Context]: what the host tells the contract about the current call. *)
Record Context : Type := mkContext {
  caller : Address;
  callerHasWriteAccess : bool;
}.

(** ** The contract *)

Definition nameKey : string := "name".
Definition symbolKey : string := "symbol".
Definition totalSupplyKey : bytes := stringToBytes "totalSupply".
Definition baseURIKey : string := "baseURI".
Definition ownerKey : string := "Owner".
Definition counterKey : bytes := stringToBytes "Counter".
Definition approvedTokenKey : string := "approved_".
Definition initCounter : u64 := 0.
Definition BALANCE_KEY : string := "BALANCE".

(** The messages of the contract's assertions, under the names the
    specification gives to the failures. *)
Definition SupplyExceeded : string := "Max supply reached".
Definition InsufficientBalance : string := "Insufficient balance".
Definition NotOwner (tokenId : u64) : string :=
  "You are not the owner of " ++ u64_toString tokenId.
Definition SelfApproval (tokenId : u64) : string :=
  "You are already the owner of " ++ u64_toString tokenId.
Definition AlreadyApproved (tokenId : u64) : string :=
  "You are already allowed to transfer " ++ u64_toString tokenId.
Definition NotApproved : string := "You are not allowed to transfer this token".

Definition constructor (ctx : Context) (binaryArgs : Args) : M unit :=
  do assert (callerHasWriteAccess ctx) "" then
  let args := binaryArgs in
  let* '(name, args) := expect (nextString args) "name argument is missing or invalid" in
  let* '(symbol, args) := expect (nextString args) "symbol argument is missing or invalid" in
  let* '(totalSupply, args) := expect (nextU64 args) "totalSupply argument is missing or invalid" in
  let* '(baseURI, args) := expect (nextString args) "baseURI argument is missing or invalid" in
  do Storage.set nameKey name then
  do Storage.set symbolKey symbol then
  do Storage.set totalSupplyKey (u64ToBytes totalSupply) then
  do Storage.set baseURIKey baseURI then
  do Storage.set ownerKey (toString (caller ctx)) then
  do Storage.set counterKey (u64ToBytes initCounter) then
  generateEvent (name ++ " with symbol " ++ symbol ++ " and total supply of "
                 ++ u64_toString totalSupply ++ " is well set").

Definition _onlyOwner (ctx : Context) : M bool :=
  let* owner := Storage.get ownerKey in
  ret (String.eqb (toString (caller ctx)) owner).

Definition setURI (ctx : Context) (binaryArgs : Args) : M unit :=
  let args := binaryArgs in
  let* '(newBaseURI, args) := expect (nextString args) "BaseURI argument is missing or invalid" in
  let* isOwner := _onlyOwner ctx in
  do assert isOwner "The caller is not the owner of the contract" then
  do Storage.set baseURIKey newBaseURI then
  generateEvent ("new base URI " ++ newBaseURI ++ " well set").

(** *** Token attributes *)

Definition name : M bytes :=
  let* stored := Storage.get nameKey in ret (stringToBytes stored).

Definition symbol : M bytes :=
  let* stored := Storage.get symbolKey in ret (stringToBytes stored).

Definition tokenURI (binaryArgs : Args) : M bytes :=
  let args := binaryArgs in
  let* '(tokenId, args) := expect (nextU64 args) "token id argument is missing or invalid" in
  let* base := Storage.get baseURIKey in
  ret (stringToBytes (base ++ u64_toString tokenId)).

Definition baseURI : M bytes :=
  let* stored := Storage.get baseURIKey in ret (stringToBytes stored).

Definition totalSupply : M bytes := Storage.get totalSupplyKey.

Definition currentSupply : M bytes := Storage.get counterKey.

(** *** Balance *)

Definition getBalanceKey (address : Address) (id : u64) : bytes :=
  stringToBytes (BALANCE_KEY ++ toString address ++ u64_toString id).

Definition _balance (address : Address) (id : u64) : M u64 :=
  let key := getBalanceKey address id in
  let* present := Storage.has key in
  if present
  then let* value := Storage.get key in ret (bytesToU64 value)
  else ret 0.

Definition _setBalance (address : Address) (id : u64) (balance : u64) : M unit :=
  Storage.set (getBalanceKey address id) (u64ToBytes balance).

Definition balanceOf (binaryArgs : Args) : M bytes :=
  let args := binaryArgs in
  let* '(a, args) := expect (nextString args) "Address argument is missing or invalid" in
  let addr := mkAddress a in
  let* '(id, args) := expect (nextU64 args) "Token ID argument is missing or invalid" in
  let* balance := _balance addr id in
  ret (u64ToBytes balance).

(** *** Mint *)

(** [_mint]: the internal credit, which no entry point calls. *)
Definition _mint (ctx : Context) (to : Address) (id amount : u64) : M unit :=
  let operator := caller ctx in
  let* balance := _balance to id in
  _setBalance to id (u64_add balance amount).

Definition _increment : M unit :=
  let* stored := Storage.get counterKey in
  let currentID := bytesToU64 stored in
  Storage.set counterKey (u64ToBytes (u64_add currentID 1)).

Definition _currentSupply : M u64 :=
  let* stored := Storage.get counterKey in
  ret (bytesToU64 stored).

Definition mint (_args : Args) : M unit :=
  let* total := Storage.get totalSupplyKey in
  let* supply := _currentSupply in
  do assert (N.ltb supply (bytesToU64 total)) SupplyExceeded then
  let args := _args in
  let* '(a, args) := expect (nextString args) "mintAddress argument is missing or invalid" in
  let mintAddress := mkAddress a in
  let* '(amount, args) := expect (nextU64 args) "amount argument is missing or invalid" in
  do _increment then
  let* tokenToMint := _currentSupply in
  let* balance := _balance mintAddress tokenToMint in
  _setBalance mintAddress tokenToMint (u64_add balance amount).

(** *** Approvals *)

Definition _approve (tokenId : u64) (spenderAddress : Address) : M unit :=
  let value := toString spenderAddress in
  let key := approvedTokenKey ++ u64_toString tokenId in
  let* present := Storage.has key in
  let* value :=
    (if present
     then let* stored := Storage.get key in ret (stored ++ "," ++ value)
     else ret value) in
  Storage.set key value.

Definition getApproved (binaryArgs : Args) : M bytes :=
  let args := binaryArgs in
  let* '(tokenId, args) := expect (nextU64 args) "tokenId argument is missing or invalid" in
  let key := approvedTokenKey ++ u64_toString tokenId in
  let* stored := Storage.get key in
  ret (stringToBytes stored).

Definition _removeApprovals (tokenId : u64) : M unit :=
  let key := approvedTokenKey ++ u64_toString tokenId in
  Storage.del key.

Definition isApproved (binaryArgs : Args) : M bool :=
  let args := binaryArgs in
  let* '(address, args) := expect (nextString args) "address argument is missing or invalid" in
  let* '(tokenId, args) := expect (nextU64 args) "tokenId argument is missing or invalid" in
  let key := approvedTokenKey ++ u64_toString tokenId in
  let* value := Storage.get key in
  let addresses := split "," value in
  ret (includes addresses address).

(** *** General assertions *)

Definition assertOwnsSFT (ctx : Context) (tokenId : u64) : M unit :=
  let* balance := _balance (caller ctx) tokenId in
  assert (N.leb 1 balance) (NotOwner tokenId).

Definition assertOnlyApproved (from : string) (tokenId : u64) : M unit :=
  let* approved := isApproved [ArgString from; ArgU64 tokenId] in
  assert approved NotApproved.

Definition approve (ctx : Context) (binaryArgs : Args) : M unit :=
  let args := binaryArgs in
  let callerAddress := caller ctx in
  let* '(tokenId, args) := expect (nextU64 args) "tokenId argument is missing or invalid" in
  do assertOwnsSFT ctx tokenId then
  let* '(t, args) := expect (nextString args) "toAddress argument is missing or invalid" in
  let toAddress := mkAddress t in
  do assert (negb (String.eqb (toString callerAddress) (toString toAddress)))
            (SelfApproval tokenId) then
  let* approved := isApproved [ArgString (toString callerAddress); ArgU64 tokenId] in
  do assert (negb approved) (AlreadyApproved tokenId) then
  do _approve tokenId toAddress then
  generateEvent ("token " ++ u64_toString tokenId ++ " approved by "
                 ++ toString (caller ctx) ++ " for " ++ toString toAddress).

(** *** Transfer *)

Definition _transfer (from to : Address) (tokenId amount : u64) : M unit :=
  do _removeApprovals tokenId then
  let* oldBalance := _balance from tokenId in
  do assert (N.leb amount oldBalance) InsufficientBalance then
  do _setBalance from tokenId (u64_sub oldBalance amount) then
  let* balance := _balance to tokenId in
  _setBalance to tokenId (u64_add balance amount).

Definition transfer (ctx : Context) (binaryArgs : Args) : M unit :=
  let fromAddress := caller ctx in
  let args := binaryArgs in
  let* '(t, args) := expect (nextString args) "toAddress argument is missing or invalid" in
  let toAddress := mkAddress t in
  let* '(tokenId, args) := expect (nextU64 args) "tokenId argument is missing or invalid" in
  let* '(amount, args) := expect (nextU64 args) "amount argument is missing or invalid" in
  do _transfer fromAddress toAddress tokenId amount then
  generateEvent ("token " ++ u64_toString tokenId ++ " sent from "
                 ++ toString fromAddress ++ " to " ++ toString toAddress).

Definition transferFrom (binaryArgs : Args) : M unit :=
  let args := binaryArgs in
  let* '(from, args) := expect (nextString args) "fromAddress argument is missing or invalid" in
  let* '(to, args) := expect (nextString args) "toAddress argument is missing or invalid" in
  let* '(tokenId, args) := expect (nextU64 args) "tokenId argument is missing or invalid" in
  do assertOnlyApproved from tokenId then
  _removeApprovals tokenId.

(** ** Observations

    The datastore as the entry points show it: each reader runs the
    read-only entry point of the contract and decodes its answer. *)

Definition answer {A} (fallback : A) (r : Outcome A * Host) : A :=
  match fst r with
  | Ok a => a
  | Abort _ => fallback
  end.

(** [balanceOf(owner, tokenId)], decoded. *)
Definition readBalance (owner : string) (tokenId : u64) (h : Host) : u64 :=
  bytesToU64 (answer EmptyString (balanceOf [ArgString owner; ArgU64 tokenId] h)).

(** [getApproved(tokenId)], as a string. *)
Definition readApproved (tokenId : u64) (h : Host) : string :=
  bytesToString (answer EmptyString (getApproved [ArgU64 tokenId] h)).

(** [currentSupply()] and [totalSupply()], decoded. *)
Definition readCounter (h : Host) : u64 :=
  bytesToU64 (answer EmptyString (currentSupply h)).

Definition readMaxSupply (h : Host) : u64 :=
  bytesToU64 (answer EmptyString (totalSupply h)).

Definition approvalKey (tokenId : u64) : string :=
  approvedTokenKey ++ u64_toString tokenId.

Definition withDatastore (h : Host) (d : gmap string bytes) : Host :=
  mkHost d (events h).

(** ** Calls and traces

    A call of an exported function, and what the host keeps of it: the
    writes of a call that returns; of a call that aborts, nothing on an
    [atomic] host and the writes made before the abort otherwise. *)
Inductive Call : Type :=
| CallConstructor (ctx : Context) (args : Args)
| CallSetURI (ctx : Context) (args : Args)
| CallName
| CallSymbol
| CallTokenURI (args : Args)
| CallBaseURI
| CallMint (args : Args)
| CallTransfer (ctx : Context) (args : Args)
| CallTransferFrom (args : Args)
| CallApprove (ctx : Context) (args : Args)
| CallGetApproved (args : Args)
| CallIsApproved (args : Args)
| CallBalanceOf (args : Args)
| CallTotalSupply
| CallCurrentSupply.

Definition silent {A} (m : M A) : M unit := do m then ret tt.

Definition exec (c : Call) : M unit :=
  match c with
  | CallConstructor ctx args => constructor ctx args
  | CallSetURI ctx args => setURI ctx args
  | CallName => silent name
  | CallSymbol => silent symbol
  | CallTokenURI args => silent (tokenURI args)
  | CallBaseURI => silent baseURI
  | CallMint args => mint args
  | CallTransfer ctx args => transfer ctx args
  | CallTransferFrom args => transferFrom args
  | CallApprove ctx args => approve ctx args
  | CallGetApproved args => silent (getApproved args)
  | CallIsApproved args => silent (isApproved args)
  | CallBalanceOf args => silent (balanceOf args)
  | CallTotalSupply => silent totalSupply
  | CallCurrentSupply => silent currentSupply
  end.

Definition succeeds (c : Call) (h : Host) : bool :=
  match fst (exec c h) with
  | Ok _ => true
  | Abort _ => false
  end.

Definition commit (atomic : bool) (c : Call) (h : Host) : Host :=
  if atomic && negb (succeeds c h) then h else snd (exec c h).

Definition run (atomic : bool) (trace : list Call) (h : Host) : Host :=
  fold_left (fun h c => commit atomic c h) trace h.

(** The datastore of a contract that has not been deployed yet. *)
Definition blank : Host := mkHost ∅ [].

(** ** Well-typed calls and a stored supply *)

(** The types of the values the entry points decode. *)
Inductive ArgType : Type :=
| TString
| TU64.

Definition hasType (t : ArgType) (a : Arg) : bool :=
  match t, a with
  | TString, ArgString _ => true
  | TU64, ArgU64 _ => true
  | _, _ => false
  end.

(** The buffer was built by adding values of the types [types], in this
    order.  It may stop early, where the decoder finds the end of the
    buffer, and it may go on, where nothing reads the rest. *)
Fixpoint typedAs (types : list ArgType) (args : Args) : bool :=
  match types, args with
  | t :: types', a :: args' => hasType t a && typedAs types' args'
  | _, _ => true
  end.

(** The types an entry point decodes, in the order of its [next] calls. *)
Definition signature (c : Call) : list ArgType :=
  match c with
  | CallConstructor _ _ => [TString; TString; TU64; TString]
  | CallSetURI _ _ => [TString]
  | CallTokenURI _ => [TU64]
  | CallMint _ => [TString; TU64]
  | CallTransfer _ _ => [TString; TU64; TU64]
  | CallTransferFrom _ => [TString; TString; TU64]
  | CallApprove _ _ => [TU64; TString]
  | CallGetApproved _ => [TU64]
  | CallIsApproved _ => [TString; TU64]
  | CallBalanceOf _ => [TString; TU64]
  | CallName | CallSymbol | CallBaseURI | CallTotalSupply | CallCurrentSupply => []
  end.

Definition argsOf (c : Call) : Args :=
  match c with
  | CallConstructor _ args | CallSetURI _ args | CallTokenURI args | CallMint args
  | CallTransfer _ args | CallTransferFrom args | CallApprove _ args
  | CallGetApproved args | CallIsApproved args | CallBalanceOf args => args
  | CallName | CallSymbol | CallBaseURI | CallTotalSupply | CallCurrentSupply => []
  end.

(** A call whose arguments are read with the types they were added
    with. *)
Definition typed (c : Call) : bool := typedAs (signature c) (argsOf c).

(** The entry of [key] holds eight bytes, as [u64ToBytes] writes them. *)
Definition holdsU64 (key : string) (h : Host) : bool :=
  match datastore h !! key with
  | Some value => Nat.eqb (String.length value) 8
  | None => false
  end.

(** The counter and the maximum supply are stored: [mint], [_increment]
    and [_currentSupply] decode what the constructor or a mint wrote. *)
Definition supplyStored (h : Host) : bool :=
  holdsU64 counterKey h && holdsU64 totalSupplyKey h.

(** ** States the calls leave behind *)

Definition cleared (tokenId : u64) (h : Host) : Host :=
  withDatastore h (delete (approvalKey tokenId) (datastore h)).

Definition debited (from : Address) (tokenId amount : u64) (h : Host) : Host :=
  withDatastore h
    (<[getBalanceKey from tokenId :=
         u64ToBytes (u64_sub (readBalance (toString from) tokenId h) amount)]> (datastore h)).

Definition credited (to : Address) (tokenId amount : u64) (h : Host) : Host :=
  withDatastore h
    (<[getBalanceKey to tokenId :=
         u64ToBytes (u64_add (readBalance (toString to) tokenId h) amount)]> (datastore h)).

Definition logged (e : string) (h : Host) : Host :=
  mkHost (datastore h) (events h ++ [e]).

Definition transferEvent (ctx : Context) (to : string) (tokenId : u64) : string :=
  "token " ++ u64_toString tokenId ++ " sent from "
  ++ toString (caller ctx) ++ " to " ++ to.

Definition incremented (h : Host) : Host :=
  withDatastore h (<[counterKey := u64ToBytes (u64_add (readCounter h) 1)]> (datastore h)).

Definition granted (tokenId : u64) (spender : string) (h : Host) : Host :=
  withDatastore h
    (<[approvalKey tokenId :=
         match datastore h !! approvalKey tokenId with
         | Some stored => stored ++ "," ++ spender
         | None => spender
         end]> (datastore h)).

Definition approveEvent (ctx : Context) (to : string) (tokenId : u64) : string :=
  "token " ++ u64_toString tokenId ++ " approved by "
  ++ toString (caller ctx) ++ " for " ++ to.

(** ** Approvals along a trace *)

(** The calls of [transfer] and [transferFrom] for [tokenId]. *)
Definition clearsApprovals (tokenId : u64) (c : Call) : bool :=
  match c with
  | CallTransfer _ (ArgString _ :: ArgU64 t :: _) => t =? tokenId
  | CallTransferFrom (ArgString _ :: ArgString _ :: ArgU64 t :: _) => t =? tokenId
  | _ => false
  end.

(** The grantee of a call of [approve] for [tokenId]. *)
Definition grantee (tokenId : u64) (c : Call) : option string :=
  match c with
  | CallApprove _ (ArgU64 t :: ArgString to :: _) =>
      if t =? tokenId then Some to else None
  | _ => None
  end.

(** The grantees of the calls of [approve] for [tokenId] that return, in
    the order of the trace. *)
Fixpoint grantees (atomic : bool) (tokenId : u64) (trace : list Call) (h : Host)
    : list string :=
  match trace with
  | [] => []
  | c :: trace' =>
      match grantee tokenId c with
      | Some to =>
          if succeeds c h
          then to :: grantees atomic tokenId trace' (commit atomic c h)
          else grantees atomic tokenId trace' (commit atomic c h)
      | None => grantees atomic tokenId trace' (commit atomic c h)
      end
  end.

(** Approvals of [tokenId] called one after the other: each by a caller,
    for a grantee. *)
Definition approveCalls (tokenId : u64) (calls : list (Context * string)) : list Call :=
  map (fun call => CallApprove (fst call) [ArgU64 tokenId; ArgString (snd call)]) calls.

(** Every call of the trace returns. *)
Fixpoint allSucceed (atomic : bool) (trace : list Call) (h : Host) : bool :=
  match trace with
  | [] => true
  | c :: trace' => succeeds c h && allSucceed atomic trace' (commit atomic c h)
  end.

(** The datastore lists [l] for [tokenId]: no entry for the empty list,
    the comma-joined addresses otherwise. *)
Definition listed (tokenId : u64) (l : list string) (h : Host) : Prop :=
  datastore h !! approvalKey tokenId =
  match l with
  | [] => None
  | _ :: _ => Some (String.concat "," l)
  end.

(** The character occurs in the string. *)
Fixpoint occurs (c : ascii) (s : string) : bool :=
  match s with
  | EmptyString => false
  | String x s' => Ascii.eqb x c || occurs c s'
  end.

(** ** Balance entries along a trace *)

(** The balance entries that a call writes when it returns. *)
Definition balanceWrites (c : Call) (h : Host) : list string :=
  match c with
  | CallMint (ArgString to :: ArgU64 _ :: _) =>
      [getBalanceKey (mkAddress to) (readCounter h + 1)]
  | CallTransfer ctx (ArgString to :: ArgU64 tokenId :: ArgU64 _ :: _) =>
      [getBalanceKey (caller ctx) tokenId; getBalanceKey (mkAddress to) tokenId]
  | _ => []
  end.

(** The balance entries written by the calls of a trace that return. *)
Fixpoint written (atomic : bool) (trace : list Call) (h : Host) : list string :=
  match trace with
  | [] => []
  | c :: trace' =>
      (if succeeds c h then balanceWrites c h else [])
      ++ written atomic trace' (commit atomic c h)
  end.

(** A computation that leaves the entry of [key] alone, whether it
    returns or aborts. *)
Definition frames {A} (key : string) (m : M A) : Prop :=
  forall h : Host, datastore (snd (m h)) !! key = datastore h !! key.

(** ** Concrete deployments

    States reached from the blank datastore by calls of the exported
    functions, as in the repository's test suite. *)
Module Scenario.

Definition MAX : u64 := 18446744073709551615.

Definition asCaller (address : string) : Context :=
  mkContext (mkAddress address) false.

Definition deploy (maxSupply : u64) : Call :=
  CallConstructor (mkContext (mkAddress "X") true)
    [ArgString "MASSA_SFT"; ArgString "SFT"; ArgU64 maxSupply; ArgString "my.massa/"].

Definition mintTo (address : string) (amount : u64) : Call :=
  CallMint [ArgString address; ArgU64 amount].

(** Max supply 5; token 1 minted to X with amount 2. *)
Definition minted : Host := run true [deploy 5; mintTo "X" 2] blank.

(** Then X approves 2x for token 1. *)
Definition approved : Host :=
  commit true (CallApprove (asCaller "X") [ArgU64 1; ArgString "2x"]) minted.

(** Max supply 5; token 1 minted to the address A1 with amount 2. *)
Definition collided : Host := run true [deploy 5; mintTo "A1" 2] blank.

(** Max supply 11; token 1 minted to the address A1 with the largest
    amount, tokens 2 to 10 minted to C with amount 1. *)
Definition tenMinted : Host :=
  run true (deploy 11 :: mintTo "A1" MAX :: repeat (mintTo "C" 1) 9) blank.

(** Then token 11 minted to B with amount 1. *)
Definition elevenMinted : Host := commit true (mintTo "B" 1) tenMinted.

(** X approves 2x and then 3x for token 1, as in test 'approval'; in
    between, token 2 is minted and Z, who holds nothing, tries to approve
    4x. *)
Definition approvals : list Call :=
  [CallApprove (asCaller "X") [ArgU64 1; ArgString "2x"];
   mintTo "Y" 1;
   CallApprove (asCaller "Z") [ArgU64 1; ArgString "4x"];
   CallGetApproved [ArgU64 1];
   CallApprove (asCaller "X") [ArgU64 1; ArgString "3x"]].

End Scenario.

(** ** Supply along a trace *)

Definition isConstructor (c : Call) : bool :=
  match c with
  | CallConstructor _ _ => true
  | _ => false
  end.

(** Mints called one after the other: each to an address, of an amount. *)
Definition mintCalls (mints : list (string * u64)) : list Call :=
  map (fun m => CallMint [ArgString (fst m); ArgU64 (snd m)]) mints.

(** ** What a call logs *)

Definition constructorEvent (name symbol : string) (totalSupply : u64) : string :=
  name ++ " with symbol " ++ symbol ++ " and total supply of "
  ++ u64_toString totalSupply ++ " is well set".

Definition setURIEvent (newBaseURI : string) : string :=
  "new base URI " ++ newBaseURI ++ " well set".

(** The states a construction and a change of the base URI leave behind. *)
Definition deployed (ctx : Context) (name symbol : string) (totalSupply : u64)
    (baseURI : string) (h : Host) : Host :=
  logged (constructorEvent name symbol totalSupply)
    (withDatastore h
       (<[counterKey := u64ToBytes initCounter]>
          (<[ownerKey := toString (caller ctx)]>
             (<[baseURIKey := baseURI]>
                (<[totalSupplyKey := u64ToBytes totalSupply]>
                   (<[symbolKey := symbol]>
                      (<[nameKey := name]> (datastore h)))))))).

Definition uriSet (uri : string) (h : Host) : Host :=
  logged (setURIEvent uri) (withDatastore h (<[baseURIKey := uri]> (datastore h))).

(** The event of a call with well-formed arguments. *)
Definition eventOf (c : Call) : list string :=
  match c with
  | CallConstructor _ (ArgString name :: ArgString symbol :: ArgU64 total :: ArgString _ :: _) =>
      [constructorEvent name symbol total]
  | CallSetURI _ (ArgString uri :: _) => [setURIEvent uri]
  | CallTransfer ctx (ArgString to :: ArgU64 tokenId :: ArgU64 _ :: _) =>
      [transferEvent ctx to tokenId]
  | CallApprove ctx (ArgU64 tokenId :: ArgString to :: _) => [approveEvent ctx to tokenId]
  | _ => []
  end.

(** The state in which a call aborts: the one it was called in, but for
    [transfer], which removes the approvals before it decides. *)
Definition abortState (c : Call) (h : Host) : Host :=
  match c with
  | CallTransfer _ (ArgString _ :: ArgU64 tokenId :: ArgU64 _ :: _) => cleared tokenId h
  | _ => h
  end.

(** The owner the contract has stored. *)
Definition readOwner (h : Host) : string :=
  answer EmptyString (Storage.get ownerKey h).

(** ** The repository's test suite

    The calls of the contract's test file, in its order.  The test
    runner makes every call with the same caller, who has write access. *)
Module Suite.

Definition callerAddress : string :=
  "A12UBnqTHDQALpocVBnkPNy7y5CndUJQTLutaVDDFgMJcq5kQiKq".

Definition ctx : Context := mkContext (mkAddress callerAddress) true.

Definition SFTtotalSupply : u64 := 5.

Definition constructed : Host :=
  commit false
    (CallConstructor ctx
       [ArgString "MASSA_SFT"; ArgString "SFT"; ArgU64 SFTtotalSupply; ArgString "my.massa/"])
    blank.

Definition uriSet : Host :=
  commit false (CallSetURI ctx [ArgString "my.newMassaURI/"]) constructed.

Definition minted : Host :=
  run false (repeat (CallMint [ArgString callerAddress; ArgU64 2]) 5) uriSet.

Definition argTransfer : list Arg := [ArgString "2x"; ArgU64 2; ArgU64 1].

Definition transferredOnce : Host := commit false (CallTransfer ctx argTransfer) minted.

Definition transferredTwice : Host :=
  commit false (CallTransfer ctx argTransfer) transferredOnce.

Definition approved : Host :=
  run false
    [CallApprove ctx [ArgU64 1; ArgString "2x"]; CallApprove ctx [ArgU64 1; ArgString "3x"]]
    transferredTwice.

Definition transferredFrom : Host :=
  commit false (CallTransferFrom [ArgString "2x"; ArgString "3x"; ArgU64 1]) approved.

End Suite.

(** * Properties *)

(** ** Encoding lemmas *)

#[global] Arguments bytesToU64 : simpl never.
#[global] Arguments u64ToBytes : simpl never.
#[global] Arguments u64_add : simpl never.
#[global] Arguments u64_sub : simpl never.
#[global] Arguments u64_toString : simpl never.

Lemma le_decode_encode (k : nat) (n : N) :
  le_decode k (le_encode k n) = n mod 256 ^ N.of_nat k.
Proof.
  revert n; induction k as [|k IH]; intros n.
  - simpl. now rewrite N.mod_1_r.
  - cbn [le_encode le_decode].
    rewrite IH, N_ascii_embedding by (apply N.mod_lt; lia).
    rewrite Nat2N.inj_succ, N.pow_succ_r'.
    now rewrite N.Div0.mod_mul_r.
Qed.

Lemma le_decode_lt (k : nat) (b : bytes) : le_decode k b < 256 ^ N.of_nat k.
Proof.
  revert b; induction k as [|k IH]; intros b.
  - simpl. lia.
  - rewrite Nat2N.inj_succ, N.pow_succ_r'.
    destruct b as [|c b]; cbn [le_decode].
    + assert (0 < 256 ^ N.of_nat k) by (apply N.neq_0_lt_0, N.pow_nonzero; lia). lia.
    + specialize (IH b). pose proof (N_ascii_bounded c). lia.
Qed.

Lemma bytesToU64_u64ToBytes (n : u64) :
  bytesToU64 (u64ToBytes n) = n mod U64_MODULUS.
Proof. unfold bytesToU64, u64ToBytes. now rewrite le_decode_encode. Qed.

Lemma bytesToU64_lt (b : bytes) : bytesToU64 b < U64_MODULUS.
Proof. apply (le_decode_lt 8 b). Qed.

Lemma bytesToU64_u64ToBytes_small (n : u64) :
  n < U64_MODULUS -> bytesToU64 (u64ToBytes n) = n.
Proof. intros H. rewrite bytesToU64_u64ToBytes. now apply N.mod_small. Qed.

Lemma u64_sub_le (a b : u64) : b <= a -> a < U64_MODULUS -> u64_sub a b = a - b.
Proof.
  intros Hb Ha. unfold u64_sub.
  rewrite (N.mod_small b) by lia.
  replace (a + U64_MODULUS - b) with ((a - b) + 1 * U64_MODULUS) by lia.
  rewrite N.Div0.mod_add. apply N.mod_small. lia.
Qed.

Lemma u64_add_small (a b : u64) : a + b < U64_MODULUS -> u64_add a b = a + b.
Proof. intros H. unfold u64_add. now apply N.mod_small. Qed.

(** ** String lemmas *)

Lemma append_cons (x : ascii) (a b : string) : String x a ++ b = String x (a ++ b).
Proof. reflexivity. Qed.

Lemma append_nil_l (b : string) : EmptyString ++ b = b.
Proof. reflexivity. Qed.

Lemma append_assoc (a b c : string) : (a ++ b) ++ c = a ++ (b ++ c).
Proof.
  induction a as [|x a IH]; [reflexivity|].
  rewrite !append_cons. now f_equal.
Qed.

Lemma append_inv_head (p a b : string) : p ++ a = p ++ b -> a = b.
Proof.
  induction p as [|x p IH]; intros H; [assumption|].
  rewrite !append_cons in H. injection H. auto.
Qed.

Lemma length_append (a b : string) :
  String.length (a ++ b) = (String.length a + String.length b)%nat.
Proof.
  induction a as [|x a IH]; [reflexivity|].
  rewrite append_cons. simpl. now f_equal.
Qed.

Lemma append_inv_tail (a b s : string) : a ++ s = b ++ s -> a = b.
Proof.
  revert b; induction a as [|x a IH]; intros [|y b] H.
  - reflexivity.
  - apply (f_equal String.length) in H.
    rewrite append_nil_l, append_cons in H. simpl in H.
    rewrite length_append in H. lia.
  - apply (f_equal String.length) in H.
    rewrite append_nil_l, append_cons in H. simpl in H.
    rewrite length_append in H. lia.
  - rewrite !append_cons in H. injection H as -> H. f_equal. now apply IH.
Qed.

(** ** Keys *)

Lemma getBalanceKey_inj_address (a b : Address) (id : u64) :
  getBalanceKey a id = getBalanceKey b id -> a = b.
Proof.
  unfold getBalanceKey, stringToBytes. intros H.
  apply append_inv_head in H. apply append_inv_tail in H.
  destruct a, b; simpl in H; congruence.
Qed.

Lemma approvalKey_inj (t1 t2 : u64) : approvalKey t1 = approvalKey t2 -> t1 = t2.
Proof.
  unfold approvalKey, u64_toString. intros H.
  apply append_inv_head in H. now apply (inj pretty) in H.
Qed.

Lemma approvalKey_not_balance (t : u64) (a : Address) (id : u64) :
  approvalKey t <> getBalanceKey a id.
Proof. discriminate. Qed.

Lemma balance_not_approvalKey (a : Address) (id t : u64) :
  getBalanceKey a id <> approvalKey t.
Proof. discriminate. Qed.

Lemma counterKey_not_balance (a : Address) (id : u64) : counterKey <> getBalanceKey a id.
Proof. discriminate. Qed.

(** ** The decoders on well-typed buffers

    Read with the type it was added with, the next value is found; a
    decoder fails only at the end of the buffer. *)

Lemma nextString_typed (types : list ArgType) (args : list Arg) :
  typedAs (TString :: types) args = true ->
  (args = [] /\ nextString args = None)
  \/ exists (s : string) (rest : list Arg),
       nextString args = Some (s, rest) /\ typedAs types rest = true.
Proof.
  destruct args as [|[s|n] rest]; cbn [typedAs hasType andb]; intros H.
  - now left.
  - right. now exists s, rest.
  - discriminate.
Qed.

Lemma nextU64_typed (types : list ArgType) (args : list Arg) :
  typedAs (TU64 :: types) args = true ->
  (args = [] /\ nextU64 args = None)
  \/ exists (n : u64) (rest : list Arg),
       nextU64 args = Some (n, rest) /\ typedAs types rest = true.
Proof.
  destruct args as [|[s|n] rest]; cbn [typedAs hasType andb]; intros H.
  - now left.
  - discriminate.
  - right. now exists n, rest.
Qed.

(** ** Running the internal functions *)

(** Unfolds the monad's plumbing and nothing else. *)
Ltac mstep :=
  cbv beta iota zeta
      delta [bind ret abort expect assert nextString nextU64 silent].

Lemma address_eta (a : Address) : mkAddress (toString a) = a.
Proof. now destruct a. Qed.

Lemma readBalance_lookup (owner : string) (id : u64) (h : Host) :
  readBalance owner id h =
  match datastore h !! getBalanceKey (mkAddress owner) id with
  | Some value => bytesToU64 value
  | None => 0
  end.
Proof.
  unfold readBalance, answer, balanceOf, _balance, bind, expect, ret, Storage.has, Storage.get.
  cbn [nextString nextU64 fst snd].
  destruct (datastore h !! getBalanceKey (mkAddress owner) id) as [value|] eqn:E.
  - rewrite bool_decide_true by eauto. simpl. rewrite E. simpl.
    apply bytesToU64_u64ToBytes_small, bytesToU64_lt.
  - rewrite bool_decide_false by (intros [? ?]; discriminate). reflexivity.
Qed.

Lemma readBalance_lt (owner : string) (id : u64) (h : Host) :
  readBalance owner id h < U64_MODULUS.
Proof.
  rewrite readBalance_lookup. destruct (_ !! _); [apply bytesToU64_lt | reflexivity].
Qed.

Lemma readBalance_ext (owner : string) (id : u64) (h h' : Host) :
  datastore h' !! getBalanceKey (mkAddress owner) id
  = datastore h !! getBalanceKey (mkAddress owner) id ->
  readBalance owner id h' = readBalance owner id h.
Proof. intros H. now rewrite !readBalance_lookup, H. Qed.

Lemma readApproved_lookup (tokenId : u64) (h : Host) :
  readApproved tokenId h = default EmptyString (datastore h !! approvalKey tokenId).
Proof. reflexivity. Qed.

Lemma readCounter_lookup (h : Host) :
  readCounter h = bytesToU64 (default EmptyString (datastore h !! counterKey)).
Proof. reflexivity. Qed.

Lemma readMaxSupply_lookup (h : Host) :
  readMaxSupply h = bytesToU64 (default EmptyString (datastore h !! totalSupplyKey)).
Proof. reflexivity. Qed.

Lemma _balance_run (a : Address) (id : u64) (h : Host) :
  _balance a id h = (Ok (readBalance (toString a) id h), h).
Proof.
  rewrite readBalance_lookup, address_eta.
  unfold _balance, bind, ret, Storage.has, Storage.get.
  destruct (datastore h !! getBalanceKey a id) as [value|] eqn:E.
  - rewrite bool_decide_true by eauto. now rewrite E.
  - rewrite bool_decide_false by (intros [? ?]; discriminate). reflexivity.
Qed.

Lemma _setBalance_run (a : Address) (id balance : u64) (h : Host) :
  _setBalance a id balance h
  = (Ok tt, withDatastore h (<[getBalanceKey a id := u64ToBytes balance]> (datastore h))).
Proof. reflexivity. Qed.

Lemma _removeApprovals_run (tokenId : u64) (h : Host) :
  _removeApprovals tokenId h
  = (Ok tt, withDatastore h (delete (approvalKey tokenId) (datastore h))).
Proof. reflexivity. Qed.

Lemma _currentSupply_run (h : Host) : _currentSupply h = (Ok (readCounter h), h).
Proof. reflexivity. Qed.

Lemma _increment_run (h : Host) :
  _increment h
  = (Ok tt, withDatastore h (<[counterKey := u64ToBytes (u64_add (readCounter h) 1)]> (datastore h))).
Proof. reflexivity. Qed.

Lemma isApproved_run (address : string) (tokenId : u64) (h : Host) :
  isApproved [ArgString address; ArgU64 tokenId] h
  = (Ok (includes (split "," (readApproved tokenId h)) address), h).
Proof. reflexivity. Qed.

Lemma getApproved_run (tokenId : u64) (h : Host) :
  getApproved [ArgU64 tokenId] h = (Ok (stringToBytes (readApproved tokenId h)), h).
Proof. reflexivity. Qed.

Lemma _approve_run (tokenId : u64) (spender : Address) (h : Host) :
  _approve tokenId spender h
  = (Ok tt,
     withDatastore h
       (<[approvalKey tokenId :=
            match datastore h !! approvalKey tokenId with
            | Some stored => stored ++ "," ++ toString spender
            | None => toString spender
            end]> (datastore h))).
Proof.
  unfold _approve, bind, ret, Storage.has, Storage.get, Storage.set, withDatastore.
  fold (approvalKey tokenId).
  destruct (datastore h !! approvalKey tokenId) as [stored|] eqn:E.
  - rewrite bool_decide_true by eauto. now rewrite E.
  - rewrite bool_decide_false by (intros [? ?]; discriminate). reflexivity.
Qed.

Lemma readBalance_cleared (owner : string) (id tokenId : u64) (h : Host) :
  readBalance owner id (cleared tokenId h) = readBalance owner id h.
Proof.
  apply readBalance_ext. cbn.
  apply lookup_delete_ne, approvalKey_not_balance.
Qed.

Lemma _transfer_run (from to : Address) (tokenId amount : u64) (h : Host) :
  _transfer from to tokenId amount h =
  if amount <=? readBalance (toString from) tokenId h
  then (Ok tt, credited to tokenId amount (debited from tokenId amount (cleared tokenId h)))
  else (Abort InsufficientBalance, cleared tokenId h).
Proof.
  unfold _transfer, bind.
  rewrite _removeApprovals_run. fold (cleared tokenId h).
  rewrite _balance_run, readBalance_cleared.
  unfold assert.
  destruct (amount <=? readBalance (toString from) tokenId h); [|reflexivity].
  unfold ret. rewrite _setBalance_run.
  rewrite _balance_run, _setBalance_run.
  unfold credited, debited. now rewrite !readBalance_cleared.
Qed.

(** ** Running the entry points on well-formed arguments *)

Lemma transfer_run (ctx : Context) (to : string) (tokenId amount : u64) (rest : list Arg)
    (h : Host) :
  transfer ctx (ArgString to :: ArgU64 tokenId :: ArgU64 amount :: rest) h =
  if amount <=? readBalance (toString (caller ctx)) tokenId h
  then (Ok tt,
        logged (transferEvent ctx to tokenId)
          (credited (mkAddress to) tokenId amount
             (debited (caller ctx) tokenId amount (cleared tokenId h))))
  else (Abort InsufficientBalance, cleared tokenId h).
Proof.
  unfold transfer, bind, expect. cbn [nextString nextU64 ret].
  rewrite _transfer_run.
  destruct (amount <=? readBalance (toString (caller ctx)) tokenId h); reflexivity.
Qed.

(** Balances after a write to one balance entry. *)
Lemma readBalance_set (owner : string) (id : u64) (a : Address) (t value : u64)
    (h : Host) (d : gmap string string) :
  readBalance owner id (withDatastore h (<[getBalanceKey a t := u64ToBytes value]> d)) =
  if decide (getBalanceKey a t = getBalanceKey (mkAddress owner) id)
  then value mod U64_MODULUS
  else readBalance owner id (withDatastore h d).
Proof.
  rewrite !readBalance_lookup. cbn [datastore withDatastore].
  case_decide as E.
  - rewrite E, lookup_insert_eq. apply bytesToU64_u64ToBytes.
  - now rewrite lookup_insert_ne.
Qed.

Lemma withDatastore_id (h : Host) : withDatastore h (datastore h) = h.
Proof. now destruct h. Qed.

Lemma readBalance_logged (owner : string) (id : u64) (e : string) (h : Host) :
  readBalance owner id (logged e h) = readBalance owner id h.
Proof. now apply readBalance_ext. Qed.

Lemma readBalance_credited (owner : string) (id : u64) (to : Address) (t amount : u64)
    (h : Host) :
  readBalance owner id (credited to t amount h) =
  if decide (getBalanceKey to t = getBalanceKey (mkAddress owner) id)
  then u64_add (readBalance (toString to) t h) amount
  else readBalance owner id h.
Proof.
  unfold credited. rewrite readBalance_set, withDatastore_id.
  case_decide; [|reflexivity].
  unfold u64_add. now rewrite N.Div0.mod_mod.
Qed.

Lemma u64_sub_mod (a b : u64) : u64_sub a b mod U64_MODULUS = u64_sub a b.
Proof. unfold u64_sub. now rewrite N.Div0.mod_mod. Qed.

Lemma readBalance_debited (owner : string) (id : u64) (from : Address) (t amount : u64)
    (h : Host) :
  readBalance owner id (debited from t amount h) =
  if decide (getBalanceKey from t = getBalanceKey (mkAddress owner) id)
  then u64_sub (readBalance (toString from) t h) amount
  else readBalance owner id h.
Proof.
  unfold debited. rewrite readBalance_set, withDatastore_id.
  case_decide; [|reflexivity]. apply u64_sub_mod.
Qed.

Lemma getBalanceKey_same (a : string) (b : Address) (id : u64) :
  getBalanceKey b id = getBalanceKey (mkAddress a) id <-> toString b = a.
Proof.
  split.
  - intros H. apply getBalanceKey_inj_address in H. now subst b.
  - intros <-. now rewrite address_eta.
Qed.

Lemma readCounter_incremented (h : Host) :
  readCounter (incremented h) = u64_add (readCounter h) 1.
Proof.
  rewrite readCounter_lookup. cbn [incremented datastore withDatastore].
  rewrite lookup_insert_eq. simpl.
  rewrite bytesToU64_u64ToBytes. unfold u64_add. now rewrite N.Div0.mod_mod.
Qed.

Lemma readBalance_incremented (owner : string) (id : u64) (h : Host) :
  readBalance owner id (incremented h) = readBalance owner id h.
Proof.
  apply readBalance_ext. cbn.
  apply lookup_insert_ne, counterKey_not_balance.
Qed.

Lemma readCounter_credited (to : Address) (t amount : u64) (h : Host) :
  readCounter (credited to t amount h) = readCounter h.
Proof.
  rewrite !readCounter_lookup. cbn [credited datastore withDatastore].
  rewrite lookup_insert_ne; [reflexivity|].
  intros E. symmetry in E. now apply counterKey_not_balance in E.
Qed.

Lemma totalSupply_run (h : Host) :
  Storage.get totalSupplyKey h = (Ok (default EmptyString (datastore h !! totalSupplyKey)), h).
Proof. reflexivity. Qed.

Lemma mint_run (to : string) (amount : u64) (rest : list Arg) (h : Host) :
  mint (ArgString to :: ArgU64 amount :: rest) h =
  if readCounter h <? readMaxSupply h
  then (Ok tt,
        credited (mkAddress to) (u64_add (readCounter h) 1) amount (incremented h))
  else (Abort SupplyExceeded, h).
Proof.
  unfold mint. mstep.
  rewrite totalSupply_run, _currentSupply_run, <- readMaxSupply_lookup.
  destruct (readCounter h <? readMaxSupply h); [|reflexivity].
  rewrite _increment_run. fold (incremented h).
  rewrite _currentSupply_run, readCounter_incremented.
  rewrite _balance_run, _setBalance_run. reflexivity.
Qed.

(** The supply check comes first: whatever the arguments are. *)
Lemma mint_supply_reached (args : list Arg) (h : Host) :
  readMaxSupply h <= readCounter h -> mint args h = (Abort SupplyExceeded, h).
Proof.
  intros H. unfold mint. mstep.
  rewrite totalSupply_run, _currentSupply_run, <- readMaxSupply_lookup.
  destruct (N.ltb_spec (readCounter h) (readMaxSupply h)); [lia | reflexivity].
Qed.

(** A mint that returns was given an address and an amount. *)
Lemma mint_ok_args (args : list Arg) (h h' : Host) :
  mint args h = (Ok tt, h') ->
  exists to amount rest, args = ArgString to :: ArgU64 amount :: rest.
Proof.
  intros H.
  destruct args as [|[to|?] [|[?|amount] rest]]; try (exists to, amount, rest; reflexivity);
    exfalso; revert H; unfold mint; mstep;
    rewrite totalSupply_run, _currentSupply_run;
    destruct (_ <? _); discriminate.
Qed.

Lemma readMaxSupply_lt (h : Host) : readMaxSupply h < U64_MODULUS.
Proof. rewrite readMaxSupply_lookup. apply bytesToU64_lt. Qed.

Lemma readCounter_lt (h : Host) : readCounter h < U64_MODULUS.
Proof. rewrite readCounter_lookup. apply bytesToU64_lt. Qed.

Lemma readBalance_key (o1 o2 : string) (id1 id2 : u64) (h : Host) :
  getBalanceKey (mkAddress o1) id1 = getBalanceKey (mkAddress o2) id2 ->
  readBalance o1 id1 h = readBalance o2 id2 h.
Proof. intros E. now rewrite !readBalance_lookup, E. Qed.

(** The outcome and the final state of a call. *)
Lemma transfer_ok (ctx : Context) (to : string) (tokenId amount : u64) (h : Host) :
  amount <= readBalance (toString (caller ctx)) tokenId h ->
  transfer ctx [ArgString to; ArgU64 tokenId; ArgU64 amount] h =
  (Ok tt,
   logged (transferEvent ctx to tokenId)
     (credited (mkAddress to) tokenId amount
        (debited (caller ctx) tokenId amount (cleared tokenId h)))).
Proof.
  intros H. rewrite transfer_run.
  destruct (N.leb_spec amount (readBalance (toString (caller ctx)) tokenId h)); [reflexivity | lia].
Qed.

Lemma transfer_insufficient (ctx : Context) (to : string) (tokenId amount : u64) (h : Host) :
  readBalance (toString (caller ctx)) tokenId h < amount ->
  transfer ctx [ArgString to; ArgU64 tokenId; ArgU64 amount] h =
  (Abort InsufficientBalance, cleared tokenId h).
Proof.
  intros H. rewrite transfer_run.
  destruct (N.leb_spec amount (readBalance (toString (caller ctx)) tokenId h)); [lia | reflexivity].
Qed.

Lemma transfer_ok_inv (ctx : Context) (to : string) (tokenId amount : u64) (h : Host) :
  fst (transfer ctx [ArgString to; ArgU64 tokenId; ArgU64 amount] h) = Ok tt ->
  amount <= readBalance (toString (caller ctx)) tokenId h.
Proof.
  rewrite transfer_run.
  destruct (N.leb_spec amount (readBalance (toString (caller ctx)) tokenId h));
    [trivial | discriminate].
Qed.

(** Balances of the sender and of a distinct recipient after a transfer
    that returns. *)
Lemma transfer_sender_balance (ctx : Context) (to : string) (tokenId amount : u64) (h : Host) :
  toString (caller ctx) <> to ->
  amount <= readBalance (toString (caller ctx)) tokenId h ->
  readBalance (toString (caller ctx)) tokenId
    (snd (transfer ctx [ArgString to; ArgU64 tokenId; ArgU64 amount] h))
  = readBalance (toString (caller ctx)) tokenId h - amount.
Proof.
  intros Hne Hle. rewrite transfer_ok by assumption. cbn [snd].
  rewrite readBalance_logged, readBalance_credited.
  rewrite decide_False by (rewrite getBalanceKey_same; cbn; congruence).
  rewrite readBalance_debited, decide_True by now rewrite address_eta.
  rewrite readBalance_cleared.
  apply u64_sub_le; [assumption | apply readBalance_lt].
Qed.

Lemma transfer_recipient_balance (ctx : Context) (to : string) (tokenId amount : u64) (h : Host) :
  toString (caller ctx) <> to ->
  amount <= readBalance (toString (caller ctx)) tokenId h ->
  readBalance to tokenId
    (snd (transfer ctx [ArgString to; ArgU64 tokenId; ArgU64 amount] h))
  = (readBalance to tokenId h + amount) mod U64_MODULUS.
Proof.
  intros Hne Hle. rewrite transfer_ok by assumption. cbn [snd].
  rewrite readBalance_logged, readBalance_credited, decide_True by reflexivity.
  cbn [toString].
  rewrite readBalance_debited, decide_False by (rewrite getBalanceKey_same; congruence).
  now rewrite readBalance_cleared.
Qed.

(** * The ledger's contract *)

(** ** Transfer *)

(** After a transfer to oneself every balance reads as before. *)
Lemma transfer_to_self_balance (ctx : Context) (tokenId amount : u64) (h : Host)
    (owner : string) (id : u64) :
  amount <= readBalance (toString (caller ctx)) tokenId h ->
  readBalance owner id
    (snd (transfer ctx [ArgString (toString (caller ctx)); ArgU64 tokenId; ArgU64 amount] h))
  = readBalance owner id h.
Proof.
  intros Hle. rewrite transfer_ok by assumption. cbn [snd].
  rewrite readBalance_logged, readBalance_credited, address_eta.
  case_decide as E.
  - rewrite readBalance_debited, decide_True by reflexivity.
    rewrite readBalance_cleared.
    rewrite <- (address_eta (caller ctx)) in E. apply readBalance_key with (h := h) in E.
    rewrite <- E.
    pose proof (readBalance_lt (toString (caller ctx)) tokenId h).
    rewrite u64_sub_le by assumption.
    rewrite u64_add_small by lia. lia.
  - rewrite readBalance_debited, decide_False by assumption.
    apply readBalance_cleared.
Qed.

(** C10.  A self-transfer within the caller's balance returns and leaves
    every balance as it was: the credit reads the balance again after the
    debit. *)
Theorem self_transfer_is_identity (ctx : Context) (tokenId amount : u64) (h : Host) :
  amount <= readBalance (toString (caller ctx)) tokenId h ->
  let call := transfer ctx [ArgString (toString (caller ctx)); ArgU64 tokenId; ArgU64 amount] h in
  fst call = Ok tt /\
  forall (owner : string) (id : u64), readBalance owner id (snd call) = readBalance owner id h.
Proof.
  intros Hle call. subst call. split.
  - now rewrite transfer_ok.
  - intros owner id. now apply transfer_to_self_balance.
Qed.

Lemma self_transfer_is_identity_witness :
  fst (transfer (Scenario.asCaller "X") [ArgString "X"; ArgU64 1; ArgU64 2] Scenario.minted) = Ok tt /\
  forall (owner : string) (id : u64),
    readBalance owner id
      (snd (transfer (Scenario.asCaller "X") [ArgString "X"; ArgU64 1; ArgU64 2] Scenario.minted))
    = readBalance owner id Scenario.minted.
Proof.
  apply (self_transfer_is_identity (Scenario.asCaller "X") 1 2 Scenario.minted).
  vm_compute. discriminate.
Defined.

(** C1, as amended.  A transfer to a distinct recipient that returns keeps
    the sum of the two balances, provided the credit stays within 64
    bits; a transfer that finds the sender's balance below the amount
    aborts and leaves both balances as they were. *)
Theorem transfer_conservation (ctx : Context) (to : string) (tokenId amount : u64) (h : Host) :
  let sender := toString (caller ctx) in
  let call := transfer ctx [ArgString to; ArgU64 tokenId; ArgU64 amount] h in
  (sender <> to ->
   fst call = Ok tt ->
   readBalance to tokenId h + amount < U64_MODULUS ->
   readBalance sender tokenId (snd call) + readBalance to tokenId (snd call)
   = readBalance sender tokenId h + readBalance to tokenId h)
  /\
  (readBalance sender tokenId h < amount ->
   fst call = Abort InsufficientBalance /\
   readBalance sender tokenId (snd call) = readBalance sender tokenId h /\
   readBalance to tokenId (snd call) = readBalance to tokenId h).
Proof.
  intros sender call. subst sender call. split.
  - intros Hne Hok Hfit. apply transfer_ok_inv in Hok.
    rewrite transfer_sender_balance, transfer_recipient_balance by assumption.
    rewrite N.mod_small by assumption. lia.
  - intros Hlt. rewrite transfer_insufficient by assumption. cbn [fst snd].
    now rewrite !readBalance_cleared.
Qed.

Lemma transfer_conservation_witness :
  (readBalance "X" 1 (snd (transfer (Scenario.asCaller "X") [ArgString "2x"; ArgU64 1; ArgU64 1] Scenario.minted))
   + readBalance "2x" 1 (snd (transfer (Scenario.asCaller "X") [ArgString "2x"; ArgU64 1; ArgU64 1] Scenario.minted))
   = readBalance "X" 1 Scenario.minted + readBalance "2x" 1 Scenario.minted)
  /\
  (fst (transfer (Scenario.asCaller "X") [ArgString "2x"; ArgU64 1; ArgU64 3] Scenario.minted)
   = Abort InsufficientBalance /\
   readBalance "X" 1 (snd (transfer (Scenario.asCaller "X") [ArgString "2x"; ArgU64 1; ArgU64 3] Scenario.minted))
   = readBalance "X" 1 Scenario.minted /\
   readBalance "2x" 1 (snd (transfer (Scenario.asCaller "X") [ArgString "2x"; ArgU64 1; ArgU64 3] Scenario.minted))
   = readBalance "2x" 1 Scenario.minted).
Proof.
  split.
  - apply (proj1 (transfer_conservation (Scenario.asCaller "X") "2x" 1 1 Scenario.minted)).
    + discriminate.
    + vm_compute. reflexivity.
    + vm_compute. reflexivity.
  - apply (proj2 (transfer_conservation (Scenario.asCaller "X") "2x" 1 3 Scenario.minted)).
    vm_compute. reflexivity.
Defined.

(** C1 as stated fails: after eleven mints B holds 1 of token 11 and the
    balance of (A, 11) is the entry written by the first mint, to the
    address A1 for token 1, with the largest amount.  B's transfer of 1
    to A returns, and the two balances sum up to 0 where they summed up
    to 2^64 before. *)
Lemma transfer_sum_not_conserved :
  let ctx := Scenario.asCaller "B" in
  let h := Scenario.elevenMinted in
  let call := transfer ctx [ArgString "A"; ArgU64 11; ArgU64 1] h in
  toString (caller ctx) <> "A" /\
  fst call = Ok tt /\
  readBalance "B" 11 h = 1 /\
  readBalance "A" 11 h = U64_MAX /\
  readBalance "B" 11 (snd call) = 0 /\
  readBalance "A" 11 (snd call) = 0 /\
  readBalance "B" 11 (snd call) + readBalance "A" 11 (snd call)
  <> readBalance "B" 11 h + readBalance "A" 11 h.
Proof.
  cbv zeta. split; [discriminate|].
  vm_compute. repeat split; try reflexivity. discriminate.
Qed.

(** C6.  [transfer] removes the approval entry of the token whatever
    happens next; when the sender's balance is below the amount the call
    aborts in the state in which only that entry has been removed. *)
Theorem transfer_clears_approvals_first (ctx : Context) (to : string) (tokenId amount : u64)
    (h : Host) :
  let call := transfer ctx [ArgString to; ArgU64 tokenId; ArgU64 amount] h in
  datastore (snd call) !! approvalKey tokenId = None
  /\
  (readBalance (toString (caller ctx)) tokenId h < amount ->
   fst call = Abort InsufficientBalance /\
   snd call = withDatastore h (delete (approvalKey tokenId) (datastore h)) /\
   forall (owner : Address) (id : u64),
     datastore (snd call) !! getBalanceKey owner id = datastore h !! getBalanceKey owner id).
Proof.
  intros call. subst call. split.
  - rewrite transfer_run. destruct (amount <=? _); cbn.
    + rewrite !lookup_insert_ne by (intros E; symmetry in E; now apply approvalKey_not_balance in E).
      apply lookup_delete_eq.
    + apply lookup_delete_eq.
  - intros Hlt. rewrite transfer_insufficient by assumption. cbn [fst snd].
    repeat split. intros owner id. cbn.
    apply lookup_delete_ne, approvalKey_not_balance.
Qed.

Lemma transfer_clears_approvals_first_witness :
  fst (transfer (Scenario.asCaller "X") [ArgString "Y"; ArgU64 1; ArgU64 3] Scenario.approved)
  = Abort InsufficientBalance /\
  snd (transfer (Scenario.asCaller "X") [ArgString "Y"; ArgU64 1; ArgU64 3] Scenario.approved)
  = withDatastore Scenario.approved (delete (approvalKey 1) (datastore Scenario.approved)) /\
  forall (owner : Address) (id : u64),
    datastore (snd (transfer (Scenario.asCaller "X") [ArgString "Y"; ArgU64 1; ArgU64 3] Scenario.approved))
      !! getBalanceKey owner id
    = datastore Scenario.approved !! getBalanceKey owner id.
Proof.
  apply (proj2 (transfer_clears_approvals_first (Scenario.asCaller "X") "Y" 1 3 Scenario.approved)).
  vm_compute. reflexivity.
Defined.

(** ** Mint *)

Lemma mint_ok (to : string) (amount : u64) (rest : list Arg) (h : Host) :
  readCounter h < readMaxSupply h ->
  mint (ArgString to :: ArgU64 amount :: rest) h =
  (Ok tt, credited (mkAddress to) (readCounter h + 1) amount (incremented h)).
Proof.
  intros Hlt. rewrite mint_run.
  destruct (N.ltb_spec (readCounter h) (readMaxSupply h)); [|lia].
  pose proof (readMaxSupply_lt h).
  now rewrite u64_add_small by lia.
Qed.

Lemma mint_ok_inv (args : list Arg) (h h' : Host) :
  mint args h = (Ok tt, h') -> readCounter h < readMaxSupply h.
Proof.
  intros H. destruct (N.lt_ge_cases (readCounter h) (readMaxSupply h)) as [|Hge]; [assumption|].
  rewrite (mint_supply_reached args h Hge) in H. discriminate.
Qed.

Lemma readCounter_minted (to : Address) (amount : u64) (h : Host) :
  readCounter h < readMaxSupply h ->
  readCounter (credited to (readCounter h + 1) amount (incremented h)) = readCounter h + 1.
Proof.
  intros Hlt. rewrite readCounter_credited, readCounter_incremented.
  pose proof (readMaxSupply_lt h). apply u64_add_small. lia.
Qed.

(** C2.  On a datastore that holds the counter and the maximum supply:
    at or above the maximum supply [mint] aborts with the
    supply-exceeded message in the state it was called in, before it
    decodes its arguments, so whatever they are; a mint with well-typed
    arguments that returns has raised the counter by exactly 1 and
    credited the recipient's balance of the token numbered by the new
    counter value, and has written nothing else. *)
Theorem mint_supply_contract :
  (forall (args : list Arg) (h : Host),
     supplyStored h = true ->
     readMaxSupply h <= readCounter h -> mint args h = (Abort SupplyExceeded, h))
  /\
  (forall (args : list Arg) (h h' : Host),
     supplyStored h = true ->
     typed (CallMint args) = true ->
     mint args h = (Ok tt, h') ->
     readCounter h' = readCounter h + 1 /\
     exists (to : string) (amount : u64) (rest : list Arg),
       args = ArgString to :: ArgU64 amount :: rest /\
       readBalance to (readCounter h') h'
       = u64_add (readBalance to (readCounter h') h) amount /\
       h' = withDatastore h
              (<[getBalanceKey (mkAddress to) (readCounter h') :=
                   u64ToBytes (u64_add (readBalance to (readCounter h') h) amount)]>
                 (<[counterKey := u64ToBytes (readCounter h')]> (datastore h)))).
Proof.
  split; [intros args h _; apply mint_supply_reached|].
  intros args h h' _ _ H.
  pose proof (mint_ok_inv _ _ _ H) as Hlt.
  destruct (mint_ok_args _ _ _ H) as (to & amount & rest & ->).
  rewrite mint_ok in H by assumption. injection H as <-.
  rewrite readCounter_minted by assumption.
  split; [reflexivity|]. exists to, amount, rest.
  split; [reflexivity|]. split.
  - rewrite readBalance_credited, decide_True by reflexivity.
    cbn [toString]. now rewrite readBalance_incremented.
  - unfold credited, incremented. cbn [toString datastore withDatastore events].
    pose proof (readMaxSupply_lt h).
    fold (incremented h). rewrite readBalance_incremented.
    unfold withDatastore, incremented, withDatastore. cbn [events datastore].
    now rewrite (u64_add_small (readCounter h) 1) by lia.
Qed.

Lemma mint_supply_contract_witness :
  mint [] (run true (Scenario.deploy 1 :: [Scenario.mintTo "X" 2]) blank)
  = (Abort SupplyExceeded, run true (Scenario.deploy 1 :: [Scenario.mintTo "X" 2]) blank)
  /\
  readCounter Scenario.minted = readCounter (run true [Scenario.deploy 5] blank) + 1.
Proof.
  split.
  - apply (proj1 mint_supply_contract).
    + vm_compute. reflexivity.
    + vm_compute. discriminate.
  - apply (proj2 mint_supply_contract [ArgString "X"; ArgU64 2]
             (run true [Scenario.deploy 5] blank) Scenario.minted).
    + vm_compute. reflexivity.
    + reflexivity.
    + vm_compute. reflexivity.
Defined.

(** C7, as amended.  The credit of [mint] and of [transfer] never aborts:
    the recipient's new balance is the balance it reads, which in a
    transfer to oneself is the debited one, plus the amount modulo
    2^64. *)
Theorem credit_wraps_around :
  (forall (to : string) (amount : u64) (rest : list Arg) (h : Host),
     readCounter h < readMaxSupply h ->
     let call := mint (ArgString to :: ArgU64 amount :: rest) h in
     fst call = Ok tt /\
     readBalance to (readCounter h + 1) (snd call)
     = (readBalance to (readCounter h + 1) h + amount) mod U64_MODULUS)
  /\
  (forall (ctx : Context) (to : string) (tokenId amount : u64) (h : Host),
     amount <= readBalance (toString (caller ctx)) tokenId h ->
     let call := transfer ctx [ArgString to; ArgU64 tokenId; ArgU64 amount] h in
     let read := if String.eqb (toString (caller ctx)) to
                 then readBalance to tokenId h - amount
                 else readBalance to tokenId h in
     fst call = Ok tt /\
     readBalance to tokenId (snd call) = (read + amount) mod U64_MODULUS).
Proof.
  split.
  - intros to amount rest h Hlt call. subst call.
    rewrite mint_ok by assumption. split; [reflexivity|]. cbn [snd].
    rewrite readBalance_credited, decide_True by reflexivity.
    cbn [toString]. now rewrite readBalance_incremented.
  - intros ctx to tokenId amount h Hle call read. subst call read.
    split; [now rewrite transfer_ok|].
    destruct (String.eqb_spec (toString (caller ctx)) to) as [<-|Hne].
    + rewrite transfer_to_self_balance by assumption.
      pose proof (readBalance_lt (toString (caller ctx)) tokenId h).
      rewrite N.mod_small; lia.
    + now apply transfer_recipient_balance.
Qed.

Lemma credit_wraps_around_witness :
  (fst (mint [ArgString "A"; ArgU64 1] Scenario.tenMinted) = Ok tt /\
   readBalance "A" (readCounter Scenario.tenMinted + 1)
     (snd (mint [ArgString "A"; ArgU64 1] Scenario.tenMinted))
   = (readBalance "A" (readCounter Scenario.tenMinted + 1) Scenario.tenMinted + 1)
       mod U64_MODULUS)
  /\
  (fst (transfer (Scenario.asCaller "B") [ArgString "A"; ArgU64 11; ArgU64 1] Scenario.elevenMinted)
   = Ok tt /\
   readBalance "A" 11
     (snd (transfer (Scenario.asCaller "B") [ArgString "A"; ArgU64 11; ArgU64 1] Scenario.elevenMinted))
   = ((if String.eqb (toString (caller (Scenario.asCaller "B"))) "A"
       then readBalance "A" 11 Scenario.elevenMinted - 1
       else readBalance "A" 11 Scenario.elevenMinted) + 1) mod U64_MODULUS).
Proof.
  split.
  - apply (proj1 credit_wraps_around "A" 1 [] Scenario.tenMinted).
    vm_compute. reflexivity.
  - apply (proj2 credit_wraps_around (Scenario.asCaller "B") "A" 11 1 Scenario.elevenMinted).
    vm_compute. discriminate.
Defined.

(** C7 as stated fails: the eleventh mint credits the entry that the
    first mint wrote with the largest amount; it returns and the balance
    wraps around to 0. *)
Lemma mint_credit_overflows :
  let h := Scenario.tenMinted in
  let call := mint [ArgString "A"; ArgU64 1] h in
  readBalance "A" 11 h = U64_MAX /\
  fst call = Ok tt /\
  readCounter (snd call) = 11 /\
  readBalance "A" 11 (snd call) = 0.
Proof. vm_compute. repeat split; reflexivity. Qed.

(** ** Approvals *)

Lemma approve_run (ctx : Context) (tokenId : u64) (to : string) (rest : list Arg) (h : Host) :
  approve ctx (ArgU64 tokenId :: ArgString to :: rest) h =
  if 1 <=? readBalance (toString (caller ctx)) tokenId h
  then if String.eqb (toString (caller ctx)) to
       then (Abort (SelfApproval tokenId), h)
       else if includes (split "," (readApproved tokenId h)) (toString (caller ctx))
            then (Abort (AlreadyApproved tokenId), h)
            else (Ok tt, logged (approveEvent ctx to tokenId) (granted tokenId to h))
  else (Abort (NotOwner tokenId), h).
Proof.
  unfold approve, assertOwnsSFT. mstep.
  rewrite _balance_run.
  destruct (1 <=? readBalance (toString (caller ctx)) tokenId h); [|reflexivity].
  cbn [toString].
  destruct (String.eqb (toString (caller ctx)) to); [reflexivity|].
  cbn [negb]. rewrite isApproved_run.
  destruct (includes _ _); [reflexivity|].
  cbn [negb]. rewrite _approve_run. reflexivity.
Qed.

Lemma transferFrom_run (from to : string) (tokenId : u64) (rest : list Arg) (h : Host) :
  transferFrom (ArgString from :: ArgString to :: ArgU64 tokenId :: rest) h =
  if includes (split "," (readApproved tokenId h)) from
  then (Ok tt, cleared tokenId h)
  else (Abort NotApproved, h).
Proof.
  unfold transferFrom, assertOnlyApproved. mstep.
  rewrite isApproved_run.
  destruct (includes _ _); reflexivity.
Qed.

(** C3, as amended.  [approve] aborts with NotOwner when the caller's
    balance of the token is zero; otherwise with SelfApproval when the
    grantee is the caller; otherwise with AlreadyApproved when the caller,
    not the grantee, is one of the comma-separated fields of the stored
    approval string; it returns exactly when none of the three holds, and
    then appends the grantee and logs the event. *)
Theorem approve_outcome (ctx : Context) (tokenId : u64) (to : string) (h : Host) :
  approve ctx [ArgU64 tokenId; ArgString to] h =
  if readBalance (toString (caller ctx)) tokenId h =? 0
  then (Abort (NotOwner tokenId), h)
  else if String.eqb (toString (caller ctx)) to
  then (Abort (SelfApproval tokenId), h)
  else if includes (split "," (readApproved tokenId h)) (toString (caller ctx))
  then (Abort (AlreadyApproved tokenId), h)
  else (Ok tt, logged (approveEvent ctx to tokenId) (granted tokenId to h)).
Proof.
  rewrite approve_run.
  destruct (N.eqb_spec (readBalance (toString (caller ctx)) tokenId h) 0) as [E|E].
  - rewrite E. reflexivity.
  - destruct (N.leb_spec 1 (readBalance (toString (caller ctx)) tokenId h)); [reflexivity | lia].
Qed.

(** C3 as stated fails: 2x is already in the approval list of token 1,
    and X's second approval of 2x returns and lists 2x twice. *)
Lemma approve_accepts_listed_grantee :
  let h := Scenario.approved in
  let call := approve (Scenario.asCaller "X") [ArgU64 1; ArgString "2x"] h in
  readApproved 1 h = "2x" /\
  includes (split "," (readApproved 1 h)) "2x" = true /\
  fst call = Ok tt /\
  readApproved 1 (snd call) = "2x,2x".
Proof. vm_compute. repeat split; reflexivity. Qed.

(** [getApproved] and [balanceOf] read and do not write. *)

(** C4.  [getApproved] returns for every token id, in the state it was
    called in: it answers the stored approval string, and the empty
    string when the token has no approval entry. *)
Theorem getApproved_never_fails (tokenId : u64) (h : Host) :
  getApproved [ArgU64 tokenId] h =
  (Ok (stringToBytes
         match datastore h !! approvalKey tokenId with
         | Some approvals => approvals
         | None => EmptyString
         end), h).
Proof.
  rewrite getApproved_run, readApproved_lookup.
  now destruct (datastore h !! approvalKey tokenId).
Qed.

Lemma balanceOf_run (owner : string) (tokenId : u64) (rest : list Arg) (h : Host) :
  balanceOf (ArgString owner :: ArgU64 tokenId :: rest) h
  = (Ok (u64ToBytes (readBalance owner tokenId h)), h).
Proof. unfold balanceOf. mstep. now rewrite _balance_run. Qed.

Lemma balanceOf_pure (args : list Arg) (h : Host) : snd (balanceOf args h) = h.
Proof.
  destruct args as [|[owner|?] [|[?|id] rest]]; try reflexivity.
  now rewrite balanceOf_run.
Qed.

(** [balanceOf] answers 0 for a pair whose key has no entry, and never
    writes. *)
Lemma balanceOf_absent (owner : string) (tokenId : u64) (h : Host) :
  datastore h !! getBalanceKey (mkAddress owner) tokenId = None ->
  balanceOf [ArgString owner; ArgU64 tokenId] h = (Ok (u64ToBytes 0), h).
Proof.
  intros H. rewrite balanceOf_run, readBalance_lookup, H. reflexivity.
Qed.

(** Two pairs, one key: the address and the decimal token id are joined
    without a separator. *)
Lemma getBalanceKey_collision :
  getBalanceKey (mkAddress "A1") 1 = getBalanceKey (mkAddress "A") 11.
Proof. reflexivity. Qed.

(** C5 on the code: token 1 has no approval entry, [getApproved] answers
    the empty string, and [transferFrom] with the empty string for the
    sender returns. *)
Lemma transferFrom_empty_sender :
  let h := Scenario.minted in
  datastore h !! approvalKey 1 = None /\
  getApproved [ArgU64 1] h = (Ok EmptyString, h) /\
  fst (transferFrom [ArgString ""; ArgString "2x"; ArgU64 1] h) = Ok tt.
Proof. vm_compute. repeat split; reflexivity. Qed.

(** What [transferFrom] does: it checks the sender against the fields of
    the stored approval string, removes the approval entry and touches
    nothing else. *)
Lemma transferFrom_outcome (from to : string) (tokenId : u64) (h : Host) :
  transferFrom [ArgString from; ArgString to; ArgU64 tokenId] h =
  if includes (split "," (readApproved tokenId h)) from
  then (Ok tt, withDatastore h (delete (approvalKey tokenId) (datastore h)))
  else (Abort NotApproved, h).
Proof. apply transferFrom_run. Qed.

Lemma transferFrom_moves_no_balance (from to : string) (tokenId : u64) (h : Host)
    (owner : string) (id : u64) :
  readBalance owner id (snd (transferFrom [ArgString from; ArgString to; ArgU64 tokenId] h))
  = readBalance owner id h.
Proof.
  rewrite transferFrom_run. destruct (includes _ _); [|reflexivity].
  apply readBalance_cleared.
Qed.

(** ** Framing: which entries a call leaves alone *)

Section Frames.

Context {A B : Type} (key : string).

Lemma frames_ret (a : A) : frames key (ret a).
Proof. now intros h. Qed.

Lemma frames_abort (msg : string) : frames key (@abort A msg).
Proof. now intros h. Qed.

Lemma frames_bind (m : M A) (f : A -> M B) :
  frames key m -> (forall a, frames key (f a)) -> frames key (bind m f).
Proof.
  intros Hm Hf h. unfold bind. specialize (Hm h).
  destruct (m h) as [[a|msg] h']; cbn [snd] in *.
  - now rewrite Hf.
  - assumption.
Qed.

Lemma frames_bind_ret (a : A) (f : A -> M B) :
  frames key (f a) -> frames key (bind (ret a) f).
Proof. intros Hf h. apply Hf. Qed.

Lemma frames_expect (r : option A) (msg : string) : frames key (expect r msg).
Proof. now destruct r; intros h. Qed.

End Frames.

Lemma frames_assert (key : string) (cond : bool) (msg : string) :
  frames key (assert cond msg).
Proof. now destruct cond; intros h. Qed.

Lemma frames_generateEvent (key e : string) : frames key (generateEvent e).
Proof. now intros h. Qed.

Lemma frames_has (key k : string) : frames key (Storage.has k).
Proof. now intros h. Qed.

Lemma frames_get (key k : string) : frames key (Storage.get k).
Proof. now intros h. Qed.

Lemma frames_set (key k value : string) : key <> k -> frames key (Storage.set k value).
Proof. intros Hne h. cbn. now apply lookup_insert_ne. Qed.

Lemma frames_del (key k : string) : key <> k -> frames key (Storage.del k).
Proof. intros Hne h. cbn. now apply lookup_delete_ne. Qed.

Ltac frames_step :=
  first
    [ apply frames_ret | apply frames_abort | apply frames_assert
    | apply frames_expect | apply frames_generateEvent
    | apply frames_has | apply frames_get
    | apply frames_set; try discriminate
    | apply frames_del; try discriminate
    | apply frames_bind; [|intros ?]
    | match goal with
      | |- frames _ (let (_, _) := ?x in _) => destruct x
      | |- frames _ (if ?b then _ else _) => destruct b
      end ].

Ltac frames_auto := repeat frames_step.

(** Case analysis on the condition of a conditional in the goal. *)
Ltac case_bool :=
  match goal with
  | |- context [if ?b then _ else _] =>
      match type of b with bool => destruct b end
  end.

Lemma frames__balance (key : string) (a : Address) (id : u64) :
  frames key (_balance a id).
Proof. unfold _balance. frames_auto. Qed.

Lemma frames__setBalance (tokenId : u64) (a : Address) (id balance : u64) :
  frames (approvalKey tokenId) (_setBalance a id balance).
Proof. unfold _setBalance. frames_auto. Qed.

Lemma frames_isApproved (key : string) (args : list Arg) : frames key (isApproved args).
Proof. unfold isApproved. frames_auto. Qed.

Lemma frames_getApproved (key : string) (args : list Arg) : frames key (getApproved args).
Proof. unfold getApproved. frames_auto. Qed.

Lemma frames_balanceOf (key : string) (args : list Arg) : frames key (balanceOf args).
Proof. unfold balanceOf. frames_auto. Qed.

Lemma frames_constructor (tokenId : u64) (ctx : Context) (args : list Arg) :
  frames (approvalKey tokenId) (constructor ctx args).
Proof. unfold constructor. frames_auto. Qed.

Lemma frames_setURI (tokenId : u64) (ctx : Context) (args : list Arg) :
  frames (approvalKey tokenId) (setURI ctx args).
Proof. unfold setURI, _onlyOwner. frames_auto. Qed.

Lemma frames_mint (tokenId : u64) (args : list Arg) :
  frames (approvalKey tokenId) (mint args).
Proof.
  unfold mint. frames_auto.
Qed.

Lemma frames_silent {A} (key : string) (m : M A) : frames key m -> frames key (silent m).
Proof. intros H. unfold silent. frames_auto. exact H. Qed.

Lemma approvalKey_ne (t tokenId : u64) :
  (t =? tokenId) = false -> approvalKey tokenId <> approvalKey t.
Proof.
  intros H E. apply approvalKey_inj in E. subst t.
  now rewrite N.eqb_refl in H.
Qed.

Lemma frames_transfer (tokenId : u64) (ctx : Context) (args : list Arg) :
  clearsApprovals tokenId (CallTransfer ctx args) = false ->
  frames (approvalKey tokenId) (transfer ctx args).
Proof.
  destruct args as [|[to|?] [|[?|t] [|[?|amount] rest]]];
    cbn [clearsApprovals]; intros H h; try reflexivity.
  apply approvalKey_ne in H.
  rewrite transfer_run. destruct (amount <=? _); cbn.
  - rewrite !lookup_insert_ne by apply balance_not_approvalKey.
    apply lookup_delete_ne. congruence.
  - apply lookup_delete_ne. congruence.
Qed.

Lemma frames_transferFrom (tokenId : u64) (args : list Arg) :
  clearsApprovals tokenId (CallTransferFrom args) = false ->
  frames (approvalKey tokenId) (transferFrom args).
Proof.
  destruct args as [|[from|?] [|[to|?] [|[?|t] rest]]];
    cbn [clearsApprovals]; intros H h; try reflexivity.
  apply approvalKey_ne in H.
  rewrite transferFrom_run. destruct (includes _ _); cbn; [|reflexivity].
  apply lookup_delete_ne. congruence.
Qed.

Lemma frames_approve (tokenId : u64) (ctx : Context) (args : list Arg) :
  grantee tokenId (CallApprove ctx args) = None ->
  frames (approvalKey tokenId) (approve ctx args).
Proof.
  destruct args as [|[?|t] [|[to|?] rest]]; cbn [grantee]; intros H h;
    try reflexivity.
  - unfold approve, assertOwnsSFT. mstep. rewrite _balance_run.
    now destruct (1 <=? _).
  - destruct (t =? tokenId) eqn:E; [discriminate|]. apply approvalKey_ne in E.
    rewrite approve_run.
    repeat (case_bool; try reflexivity).
    cbn. apply lookup_insert_ne. congruence.
  - unfold approve, assertOwnsSFT. mstep. rewrite _balance_run.
    now destruct (1 <=? _).
Qed.

(** A call that is neither a transfer nor an approval for the token
    leaves the token's approval entry alone. *)
Lemma exec_keeps_approvals (tokenId : u64) (c : Call) :
  clearsApprovals tokenId c = false ->
  grantee tokenId c = None ->
  frames (approvalKey tokenId) (exec c).
Proof.
  intros Hclear Hgrant. destruct c; cbn [exec].
  - apply frames_constructor.
  - apply frames_setURI.
  - apply frames_silent. unfold name. frames_auto.
  - apply frames_silent. unfold symbol. frames_auto.
  - apply frames_silent. unfold tokenURI. frames_auto.
  - apply frames_silent. unfold baseURI. frames_auto.
  - apply frames_mint.
  - now apply frames_transfer.
  - now apply frames_transferFrom.
  - now apply frames_approve.
  - apply frames_silent, frames_getApproved.
  - apply frames_silent, frames_isApproved.
  - apply frames_silent, frames_balanceOf.
  - apply frames_silent. unfold totalSupply. frames_auto.
  - apply frames_silent. unfold currentSupply. frames_auto.
Qed.

Lemma approve_aborts_clean (ctx : Context) (args : list Arg) (h : Host) :
  succeeds (CallApprove ctx args) h = false -> snd (approve ctx args h) = h.
Proof.
  unfold succeeds. cbn [exec].
  destruct args as [|[?|t] [|[to|?] rest]]; try reflexivity.
  - unfold approve, assertOwnsSFT. mstep. rewrite _balance_run.
    now case_bool.
  - rewrite approve_run. repeat (case_bool; try reflexivity). discriminate.
  - unfold approve, assertOwnsSFT. mstep. rewrite _balance_run.
    now case_bool.
Qed.

Section Commit.

Variable atomic : bool.

Lemma commit_returned (c : Call) (h : Host) :
  succeeds c h = true -> commit atomic c h = snd (exec c h).
Proof. intros H. unfold commit. rewrite H. now rewrite andb_false_r. Qed.

Lemma run_cons (c : Call) (trace : list Call) (h : Host) :
  run atomic (c :: trace) h = run atomic trace (commit atomic c h).
Proof. reflexivity. Qed.

Lemma commit_keeps_approvals (tokenId : u64) (c : Call) (h : Host) :
  clearsApprovals tokenId c = false ->
  grantee tokenId c = None ->
  datastore (commit atomic c h) !! approvalKey tokenId
  = datastore h !! approvalKey tokenId.
Proof.
  intros Hclear Hgrant. unfold commit.
  destruct (atomic && negb (succeeds c h)); [reflexivity|].
  now apply exec_keeps_approvals.
Qed.

(** An approval for the token that returns appends its grantee. *)
Lemma commit_appends_grantee (tokenId : u64) (c : Call) (to : string) (h : Host) :
  grantee tokenId c = Some to ->
  succeeds c h = true ->
  datastore (commit atomic c h) !! approvalKey tokenId =
  Some match datastore h !! approvalKey tokenId with
       | Some stored => stored ++ "," ++ to
       | None => to
       end.
Proof.
  intros Hgrant Hok. rewrite commit_returned by assumption.
  revert Hok. unfold succeeds.
  destruct c as [| | | | | | | | |ctx [|[?|t] [|[to'|?] rest]]| | | | |]; try discriminate.
  cbn [grantee] in Hgrant. destruct (N.eqb_spec t tokenId) as [->|]; [|discriminate].
  injection Hgrant as ->.
  cbn [exec]. rewrite approve_run.
  repeat (case_bool; try (intros; discriminate)).
  intros _. cbn. apply lookup_insert_eq.
Qed.

(** An approval that aborts has written nothing. *)
Lemma commit_aborted_approval (tokenId : u64) (c : Call) (to : string) (h : Host) :
  grantee tokenId c = Some to ->
  succeeds c h = false ->
  commit atomic c h = h.
Proof.
  intros Hgrant Hfail. unfold commit. rewrite Hfail.
  destruct atomic; [reflexivity|]. cbn [andb].
  destruct c; try discriminate. now apply approve_aborts_clean.
Qed.

End Commit.

(** ** Joining and splitting *)

Lemma concat_snoc (sep : string) (l : list string) (x : string) :
  l <> [] -> String.concat sep (l ++ [x]) = String.concat sep l ++ sep ++ x.
Proof.
  induction l as [|a [|b l] IH]; intros Hne.
  - contradiction.
  - reflexivity.
  - change (String.concat sep ((a :: b :: l) ++ [x]))
      with (a ++ sep ++ String.concat sep ((b :: l) ++ [x])).
    rewrite IH by discriminate.
    change (String.concat sep (a :: b :: l)) with (a ++ sep ++ String.concat sep (b :: l)).
    now rewrite !append_assoc.
Qed.

Lemma split_cons_sep (sep : ascii) (s : string) :
  split sep (String sep s) = EmptyString :: split sep s.
Proof. cbn [split]. now rewrite Ascii.eqb_refl. Qed.

Lemma split_not_nil (sep : ascii) (s : string) : split sep s <> [].
Proof.
  induction s as [|c s IH]; cbn [split]; [discriminate|].
  destruct (Ascii.eqb c sep); [discriminate|].
  now destruct (split sep s).
Qed.

(** A field without separator, followed by a separator and more. *)
Lemma split_field (sep : ascii) (field rest : string) :
  occurs sep field = false ->
  split sep (field ++ String sep rest) = field :: split sep rest.
Proof.
  induction field as [|c field IH]; intros H.
  - rewrite append_nil_l. apply split_cons_sep.
  - cbn [occurs] in H. apply orb_false_iff in H as [Hc Hfield].
    rewrite append_cons. cbn [split]. rewrite Hc, IH by assumption. reflexivity.
Qed.

Lemma split_single (sep : ascii) (field : string) :
  occurs sep field = false -> split sep field = [field].
Proof.
  induction field as [|c field IH]; intros H; [reflexivity|].
  cbn [occurs] in H. apply orb_false_iff in H as [Hc Hfield].
  cbn [split]. rewrite Hc, IH by assumption. reflexivity.
Qed.

(** Splitting recovers the joined fields when none holds a separator. *)
Lemma split_concat (sep : ascii) (l : list string) :
  l <> [] ->
  forallb (fun field => negb (occurs sep field)) l = true ->
  split sep (String.concat (String sep EmptyString) l) = l.
Proof.
  induction l as [|a [|b l] IH]; intros Hne Hfree.
  - contradiction.
  - cbn in Hfree. rewrite andb_true_r in Hfree. apply negb_true_iff in Hfree.
    now apply split_single.
  - change (String.concat (String sep EmptyString) (a :: b :: l))
      with (a ++ String sep EmptyString ++ String.concat (String sep EmptyString) (b :: l)).
    cbn [forallb] in Hfree. apply andb_true_iff in Hfree as [Ha Hfree].
    apply negb_true_iff in Ha.
    rewrite append_cons, append_nil_l, split_field by assumption.
    now rewrite IH.
Qed.

(** ** Approvals along a trace *)

Lemma listed_snoc (tokenId : u64) (l : list string) (to : string) (h h' : Host) :
  listed tokenId l h ->
  datastore h' !! approvalKey tokenId =
    Some match datastore h !! approvalKey tokenId with
         | Some stored => stored ++ "," ++ to
         | None => to
         end ->
  listed tokenId (l ++ [to]) h'.
Proof.
  unfold listed. intros Hl Hh'. rewrite Hh', Hl.
  destruct l as [|a l]; [reflexivity|].
  rewrite concat_snoc by discriminate. reflexivity.
Qed.

Lemma run_lists_grantees (atomic : bool) (tokenId : u64) (trace : list Call) :
  forall (l : list string) (h : Host),
    listed tokenId l h ->
    forallb (fun c => negb (clearsApprovals tokenId c)) trace = true ->
    listed tokenId (l ++ grantees atomic tokenId trace h) (run atomic trace h).
Proof.
  induction trace as [|c trace IH]; intros l h Hl Hclear.
  - cbn. now rewrite app_nil_r.
  - cbn [forallb] in Hclear. apply andb_true_iff in Hclear as [Hc Hclear].
    apply negb_true_iff in Hc.
    rewrite run_cons. cbn [grantees].
    destruct (grantee tokenId c) as [to|] eqn:Hgrant.
    + destruct (succeeds c h) eqn:Hok.
      * change (to :: grantees atomic tokenId trace (commit atomic c h))
          with ([to] ++ grantees atomic tokenId trace (commit atomic c h))%list.
        rewrite app_assoc. apply IH; [|assumption].
        apply listed_snoc with (h := h); [assumption|].
        now apply commit_appends_grantee.
      * apply IH; [|assumption].
        now rewrite (commit_aborted_approval atomic tokenId c to h).
    + apply IH; [|assumption].
      unfold listed. now rewrite commit_keeps_approvals.
Qed.

Lemma readApproved_after_trace (atomic : bool) (tokenId : u64) (trace : list Call)
    (h : Host) :
  datastore h !! approvalKey tokenId = None ->
  forallb (fun c => negb (clearsApprovals tokenId c)) trace = true ->
  readApproved tokenId (run atomic trace h)
  = String.concat "," (grantees atomic tokenId trace h).
Proof.
  intros Hnone Hclear.
  pose proof (run_lists_grantees atomic tokenId trace [] h Hnone Hclear) as Hl.
  cbn [app] in Hl. unfold listed in Hl.
  rewrite readApproved_lookup, Hl.
  now destruct (grantees atomic tokenId trace h).
Qed.

Lemma approveCalls_clear_nothing (tokenId : u64) (calls : list (Context * string)) :
  forallb (fun c => negb (clearsApprovals tokenId c)) (approveCalls tokenId calls) = true.
Proof. induction calls as [|call calls IH]; [reflexivity | exact IH]. Qed.

Lemma grantees_approveCalls (atomic : bool) (tokenId : u64)
    (calls : list (Context * string)) :
  forall h : Host,
    allSucceed atomic (approveCalls tokenId calls) h = true ->
    grantees atomic tokenId (approveCalls tokenId calls) h = map snd calls.
Proof.
  induction calls as [|call calls IH]; intros h Hall; [reflexivity|].
  cbn [approveCalls map allSucceed] in Hall. apply andb_true_iff in Hall as [Hok Hall].
  cbn [approveCalls map grantees grantee]. rewrite N.eqb_refl, Hok.
  f_equal. now apply IH.
Qed.

(** K approvals of a token in a row, all returning, on a token without
    approval entry: [getApproved] answers the K grantees in the order of
    the calls. *)
Lemma getApproved_after_approvals (atomic : bool) (tokenId : u64)
    (calls : list (Context * string)) (h : Host) :
  datastore h !! approvalKey tokenId = None ->
  allSucceed atomic (approveCalls tokenId calls) h = true ->
  getApproved [ArgU64 tokenId] (run atomic (approveCalls tokenId calls) h)
  = (Ok (stringToBytes (String.concat "," (map snd calls))),
     run atomic (approveCalls tokenId calls) h).
Proof.
  intros Hnone Hall.
  rewrite getApproved_run, readApproved_after_trace
    by (assumption || apply approveCalls_clear_nothing).
  now rewrite grantees_approveCalls.
Qed.

(** C8.  From a state of the deployed contract without approval entry
    for the token, along any trace of well-typed calls without a
    [transfer] or [transferFrom] for the token, [getApproved] returns the
    grantees of the approvals that returned, joined by commas in the
    order of the calls; splitting the answer at the commas gives back the
    grantees, when there is one and none holds a comma. *)
Theorem getApproved_lists_grantees (atomic : bool) (tokenId : u64) (trace : list Call)
    (h : Host) :
  supplyStored h = true ->
  forallb typed trace = true ->
  datastore h !! approvalKey tokenId = None ->
  forallb (fun c => negb (clearsApprovals tokenId c)) trace = true ->
  let approvals := grantees atomic tokenId trace h in
  getApproved [ArgU64 tokenId] (run atomic trace h)
  = (Ok (stringToBytes (String.concat "," approvals)), run atomic trace h)
  /\
  (approvals <> [] ->
   forallb (fun field => negb (occurs "," field)) approvals = true ->
   split "," (readApproved tokenId (run atomic trace h)) = approvals).
Proof.
  intros _ _ Hnone Hclear approvals.
  pose proof (readApproved_after_trace atomic tokenId trace h Hnone Hclear) as E.
  fold approvals in E. split.
  - now rewrite getApproved_run, E.
  - intros Hne Hfree. rewrite E. now apply split_concat.
Qed.

Lemma getApproved_lists_grantees_witness :
  grantees false 1 Scenario.approvals Scenario.minted = ["2x"; "3x"] /\
  getApproved [ArgU64 1] (run false Scenario.approvals Scenario.minted)
  = (Ok (stringToBytes
           (String.concat "," (grantees false 1 Scenario.approvals Scenario.minted))),
     run false Scenario.approvals Scenario.minted) /\
  split "," (readApproved 1 (run false Scenario.approvals Scenario.minted))
  = grantees false 1 Scenario.approvals Scenario.minted.
Proof.
  split; [vm_compute; reflexivity|].
  pose proof (getApproved_lists_grantees false 1 Scenario.approvals Scenario.minted) as H.
  destruct H as [Hjoined Hfields].
  - vm_compute. reflexivity.
  - reflexivity.
  - vm_compute. reflexivity.
  - vm_compute. reflexivity.
  - split; [exact Hjoined|].
    apply Hfields.
    + vm_compute. discriminate.
    + vm_compute. reflexivity.
Defined.

(** X24.  What [isApproved], and with it [transferFrom], makes of the
    approvals of a trace of well-typed calls on the deployed contract:
    membership among the grantees, except that without any approval the
    empty address passes. *)
Lemma isApproved_after_approvals (atomic : bool) (tokenId : u64) (trace : list Call)
    (h : Host) (address : string) :
  supplyStored h = true ->
  forallb typed trace = true ->
  datastore h !! approvalKey tokenId = None ->
  forallb (fun c => negb (clearsApprovals tokenId c)) trace = true ->
  forallb (fun field => negb (occurs "," field)) (grantees atomic tokenId trace h) = true ->
  isApproved [ArgString address; ArgU64 tokenId] (run atomic trace h) =
  (Ok match grantees atomic tokenId trace h with
      | [] => String.eqb address EmptyString
      | approvals => includes approvals address
      end, run atomic trace h).
Proof.
  intros _ _ Hnone Hclear Hfree.
  pose proof (run_lists_grantees atomic tokenId trace [] h Hnone Hclear) as Hl.
  cbn [app] in Hl. unfold listed in Hl.
  rewrite isApproved_run, readApproved_lookup, Hl.
  destruct (grantees atomic tokenId trace h) as [|a l] eqn:E.
  - cbn. now rewrite orb_false_r.
  - cbn [default from_option id]. now rewrite split_concat.
Qed.

(** ** Balance entries along a trace *)

Section BalanceKey.

Variables (owner : Address) (id : u64).

Let key : string := getBalanceKey owner id.

Lemma frames_balance_constructor (ctx : Context) (args : list Arg) :
  frames key (constructor ctx args).
Proof. unfold constructor. frames_auto. Qed.

Lemma frames_balance_setURI (ctx : Context) (args : list Arg) :
  frames key (setURI ctx args).
Proof. unfold setURI, _onlyOwner. frames_auto. Qed.

Lemma frames_balance_approve (ctx : Context) (args : list Arg) :
  frames key (approve ctx args).
Proof. unfold approve, assertOwnsSFT, _approve. frames_auto. Qed.

Lemma frames_balance_transferFrom (args : list Arg) :
  frames key (transferFrom args).
Proof. unfold transferFrom, assertOnlyApproved, _removeApprovals. frames_auto. Qed.

Lemma mint_keeps_balance (args : list Arg) (h : Host) :
  ~ In key (if succeeds (CallMint args) h then balanceWrites (CallMint args) h else []) ->
  datastore (snd (mint args h)) !! key = datastore h !! key.
Proof.
  unfold succeeds. cbn [exec].
  destruct (mint args h) as [[[]|msg] h'] eqn:E; intros Hout.
  - pose proof (mint_ok_inv _ _ _ E) as Hlt.
    destruct (mint_ok_args _ _ _ E) as (to & amount & rest & ->).
    rewrite mint_ok in E by assumption. injection E as <-.
    cbn in Hout. cbn.
    rewrite !lookup_insert_ne; [reflexivity | discriminate | tauto].
  - replace h' with h; [reflexivity|].
    revert E. unfold mint. mstep. rewrite totalSupply_run, _currentSupply_run.
    destruct (readCounter h <? _); [|congruence].
    destruct args as [|[to|?] [|[?|amount] rest]]; try congruence.
    rewrite _increment_run, _currentSupply_run, _balance_run, _setBalance_run.
    discriminate.
Qed.

Lemma transfer_keeps_balance (ctx : Context) (args : list Arg) (h : Host) :
  ~ In key (if succeeds (CallTransfer ctx args) h
            then balanceWrites (CallTransfer ctx args) h else []) ->
  datastore (snd (transfer ctx args h)) !! key = datastore h !! key.
Proof.
  unfold succeeds. cbn [exec].
  destruct args as [|[to|?] [|[?|t] [|[?|amount] rest]]]; try reflexivity.
  rewrite transfer_run.
  destruct (amount <=? readBalance (toString (caller ctx)) t h);
    intros Hout; cbn in Hout; cbn.
  - rewrite !lookup_insert_ne by tauto.
    apply lookup_delete_ne. discriminate.
  - apply lookup_delete_ne. discriminate.
Qed.

(** A call changes a balance entry only if it writes it. *)
Lemma commit_keeps_balance (atomic : bool) (c : Call) (h : Host) :
  ~ In key (if succeeds c h then balanceWrites c h else []) ->
  datastore (commit atomic c h) !! key = datastore h !! key.
Proof.
  unfold commit. destruct (atomic && negb (succeeds c h)); [reflexivity|].
  intros Hout. destruct c; cbn [exec].
  - apply frames_balance_constructor.
  - apply frames_balance_setURI.
  - apply frames_silent. unfold name. frames_auto.
  - apply frames_silent. unfold symbol. frames_auto.
  - apply frames_silent. unfold tokenURI. frames_auto.
  - apply frames_silent. unfold baseURI. frames_auto.
  - now apply mint_keeps_balance.
  - now apply transfer_keeps_balance.
  - apply frames_balance_transferFrom.
  - apply frames_balance_approve.
  - apply frames_silent, frames_getApproved.
  - apply frames_silent, frames_isApproved.
  - apply frames_silent, frames_balanceOf.
  - apply frames_silent. unfold totalSupply. frames_auto.
  - apply frames_silent. unfold currentSupply. frames_auto.
Qed.

Lemma run_keeps_balance (atomic : bool) (trace : list Call) :
  forall h : Host,
    ~ In key (written atomic trace h) ->
    datastore (run atomic trace h) !! key = datastore h !! key.
Proof.
  induction trace as [|c trace IH]; intros h Hout; [reflexivity|].
  rewrite run_cons.
  cbn [written] in Hout. rewrite in_app_iff in Hout.
  rewrite IH by tauto. apply commit_keeps_balance. tauto.
Qed.

End BalanceKey.

(** X25.  What holds of untouched balances: from a state of the
    deployed contract in which a pair's key has no entry, along any trace
    of well-typed calls, [balanceOf] answers 0 for the pair as long as no
    mint and no transfer that returned has written its key. *)
Lemma balanceOf_unwritten (atomic : bool) (owner : string) (tokenId : u64)
    (trace : list Call) (h : Host) :
  supplyStored h = true ->
  forallb typed trace = true ->
  datastore h !! getBalanceKey (mkAddress owner) tokenId = None ->
  ~ In (getBalanceKey (mkAddress owner) tokenId) (written atomic trace h) ->
  balanceOf [ArgString owner; ArgU64 tokenId] (run atomic trace h)
  = (Ok (u64ToBytes 0), run atomic trace h).
Proof.
  intros _ _ Hnone Hout. apply balanceOf_absent.
  now rewrite run_keeps_balance.
Qed.

(** C9 on the code: after the deployment and one mint, of token 1 to the
    address A1, the only balance entry ever written is that of (A1, 1);
    no mint or transfer has touched the pair (A, 11), and [balanceOf]
    answers 2 for it. *)
Lemma balanceOf_untouched_pair :
  Scenario.collided = run true [Scenario.deploy 5; Scenario.mintTo "A1" 2] blank /\
  written true [Scenario.deploy 5; Scenario.mintTo "A1" 2] blank
  = [getBalanceKey (mkAddress "A1") 1] /\
  balanceOf [ArgString "A"; ArgU64 11] Scenario.collided
  = (Ok (u64ToBytes 2), Scenario.collided).
Proof. split; [reflexivity|]. vm_compute. split; reflexivity. Qed.

(** ** The embedding passes the repository's tests *)

Example test_constructor_call :
  succeeds (CallConstructor Suite.ctx
              [ArgString "MASSA_SFT"; ArgString "SFT"; ArgU64 5; ArgString "my.massa/"]) blank
  = true /\
  readCounter Suite.constructed = initCounter.
Proof. vm_compute. split; reflexivity. Qed.

Example test_token_attributes :
  fst (name Suite.constructed) = Ok "MASSA_SFT" /\
  fst (symbol Suite.constructed) = Ok "SFT" /\
  readMaxSupply Suite.constructed = Suite.SFTtotalSupply /\
  fst (baseURI Suite.constructed) = Ok "my.massa/" /\
  readCounter Suite.constructed = 0 /\
  fst (tokenURI [ArgU64 1] Suite.constructed) = Ok "my.massa/1" /\
  fst (tokenURI [ArgU64 1] Suite.uriSet) = Ok "my.newMassaURI/1".
Proof. vm_compute. repeat split; reflexivity. Qed.

Example test_mint_call :
  datastore Suite.minted !! counterKey = Some (u64ToBytes Suite.SFTtotalSupply) /\
  readCounter Suite.minted = Suite.SFTtotalSupply /\
  balanceOf [ArgString Suite.callerAddress; ArgU64 3] Suite.minted
  = (Ok (u64ToBytes 2), Suite.minted).
Proof. vm_compute. repeat split; reflexivity. Qed.

Example test_max_supply_reached :
  fst (mint [ArgString Suite.callerAddress] Suite.minted) = Abort SupplyExceeded /\
  readCounter Suite.minted = Suite.SFTtotalSupply.
Proof. vm_compute. split; reflexivity. Qed.

Example test_transfer_call :
  readBalance Suite.callerAddress 2 Suite.transferredOnce = 1 /\
  readBalance "2x" 2 Suite.transferredOnce = 1 /\
  readBalance Suite.callerAddress 2 Suite.transferredTwice = 0 /\
  readBalance "2x" 2 Suite.transferredTwice = 2.
Proof. vm_compute. repeat split; reflexivity. Qed.

Example test_approval :
  split "," (readApproved 1 Suite.approved) = ["2x"; "3x"].
Proof. vm_compute. reflexivity. Qed.

Example test_transferFrom :
  succeeds (CallTransferFrom [ArgString "2x"; ArgString "3x"; ArgU64 1]) Suite.approved = true /\
  readApproved 1 Suite.transferredFrom = EmptyString.
Proof. vm_compute. split; reflexivity. Qed.

(** * Further properties of the contract *)

(** ** Balance entries *)

(** X1.  A balance written by [_setBalance] is the balance [_balance]
    reads back, modulo 2^64, and the write is seen by no pair with
    another key. *)
Theorem setBalance_read_back (a : Address) (id balance : u64) (h : Host) :
  let h' := snd (_setBalance a id balance h) in
  _balance a id h' = (Ok (balance mod U64_MODULUS), h') /\
  forall (b : Address) (j : u64),
    getBalanceKey b j <> getBalanceKey a id ->
    _balance b j h' = (Ok (readBalance (toString b) j h), h').
Proof.
  intros h'. subst h'. rewrite _setBalance_run. cbn [snd]. split.
  - rewrite _balance_run, readBalance_set, address_eta.
    now rewrite decide_True by reflexivity.
  - intros b j Hne. rewrite _balance_run, readBalance_set, address_eta.
    rewrite decide_False by congruence. now rewrite withDatastore_id.
Qed.

Lemma setBalance_read_back_witness :
  _balance (mkAddress "Y") 1 (snd (_setBalance (mkAddress "X") 1 7 Scenario.minted))
  = (Ok (readBalance "Y" 1 Scenario.minted),
     snd (_setBalance (mkAddress "X") 1 7 Scenario.minted)).
Proof.
  apply (proj2 (setBalance_read_back (mkAddress "X") 1 7 Scenario.minted)).
  discriminate.
Defined.

(** X2.  Two pairs that share a balance key differ in both the address
    and the token id, or in neither: the balances of one address for two
    tokens, and of two addresses for one token, are separate entries. *)
Theorem getBalanceKey_shared (a b : Address) (i j : u64) :
  getBalanceKey a i = getBalanceKey b j -> (a = b <-> i = j).
Proof.
  intros H. split.
  - intros ->. unfold getBalanceKey, stringToBytes in H.
    do 2 apply append_inv_head in H.
    unfold u64_toString in H. now apply (inj pretty) in H.
  - intros ->. now apply getBalanceKey_inj_address in H.
Qed.

Lemma getBalanceKey_shared_witness :
  mkAddress "A1" = mkAddress "A" <-> 1 = 11.
Proof. apply (getBalanceKey_shared (mkAddress "A1") (mkAddress "A") 1 11). reflexivity. Defined.

(** X3.  The contract's six bookkeeping keys, the balance keys and the
    approval keys never meet, whatever the address and the token id; and
    two tokens never share an approval key. *)
Theorem key_spaces_disjoint (a : Address) (id t t' : u64) :
  Forall (fun key => key <> getBalanceKey a id /\ key <> approvalKey t)
    [nameKey; symbolKey; totalSupplyKey; baseURIKey; ownerKey; counterKey]
  /\ getBalanceKey a id <> approvalKey t
  /\ (t <> t' -> approvalKey t <> approvalKey t').
Proof.
  split; [|split].
  - repeat constructor; discriminate.
  - discriminate.
  - intros Hne E. now apply approvalKey_inj in E.
Qed.

Lemma key_spaces_disjoint_witness : approvalKey 1 <> approvalKey 12.
Proof.
  apply (proj2 (proj2 (key_spaces_disjoint (mkAddress "X") 1 1 12))). discriminate.
Defined.

(** ** Deployment and the base URI *)

Lemma constructor_run (ctx : Context) (name symbol : string) (totalSupply : u64)
    (baseURI : string) (rest : list Arg) (h : Host) :
  constructor ctx
    (ArgString name :: ArgString symbol :: ArgU64 totalSupply :: ArgString baseURI :: rest) h =
  if callerHasWriteAccess ctx
  then (Ok tt, deployed ctx name symbol totalSupply baseURI h)
  else (Abort EmptyString, h).
Proof. unfold constructor. mstep. now destruct (callerHasWriteAccess ctx). Qed.

Lemma constructor_no_access (ctx : Context) (args : list Arg) (h : Host) :
  callerHasWriteAccess ctx = false -> constructor ctx args h = (Abort EmptyString, h).
Proof. intros H. unfold constructor. mstep. now rewrite H. Qed.

(** The supply and the balances after a construction. *)
Lemma constructor_deploys_aux (ctx : Context) (n s : string) (total : u64) (uri : string)
    (h : Host) :
  let h' :=
    snd (constructor ctx [ArgString n; ArgString s; ArgU64 total; ArgString uri] h) in
  (callerHasWriteAccess ctx = false -> h' = h) /\
  (callerHasWriteAccess ctx = true ->
   readMaxSupply h' = total mod U64_MODULUS /\
   readCounter h' = 0 /\
   forall (owner : string) (id : u64), readBalance owner id h' = readBalance owner id h).
Proof.
  intros h'. subst h'. rewrite constructor_run.
  split; intros ->; [reflexivity|]. cbn [snd]. repeat split.
  - rewrite readMaxSupply_lookup. cbn.
    rewrite !lookup_insert_ne, lookup_insert_eq by discriminate.
    apply bytesToU64_u64ToBytes.
  - rewrite readCounter_lookup. cbn. now rewrite lookup_insert_eq.
  - intros owner id. apply readBalance_ext. cbn.
    now rewrite !lookup_insert_ne by discriminate.
Qed.

(** X4.  Without write access the constructor aborts before it reads its
    arguments and writes nothing.  With write access it returns, and
    then the views answer what was passed, the counter is 0, the caller
    is the owner, one event is logged, and every balance and approval is
    what it was before: a second construction resets the supply and
    keeps the ledger. *)
Theorem constructor_deploys (ctx : Context) (n s : string) (total : u64) (uri : string)
    (rest args : list Arg) (h : Host) :
  (callerHasWriteAccess ctx = false -> constructor ctx args h = (Abort EmptyString, h))
  /\
  (callerHasWriteAccess ctx = true ->
   let call :=
     constructor ctx (ArgString n :: ArgString s :: ArgU64 total :: ArgString uri :: rest) h in
   let h' := snd call in
   fst call = Ok tt /\
   name h' = (Ok n, h') /\
   symbol h' = (Ok s, h') /\
   baseURI h' = (Ok uri, h') /\
   readMaxSupply h' = total mod U64_MODULUS /\
   readCounter h' = 0 /\
   readOwner h' = toString (caller ctx) /\
   events h' = (events h ++ [constructorEvent n s total])%list /\
   (forall (owner : string) (id : u64), readBalance owner id h' = readBalance owner id h) /\
   (forall tokenId : u64, readApproved tokenId h' = readApproved tokenId h)).
Proof.
  split; [apply constructor_no_access|].
  intros Haccess call h'. subst h' call. rewrite constructor_run, Haccess. cbn [fst snd].
  assert (forall key value,
            datastore (deployed ctx n s total uri h) !! key = Some value ->
            Storage.get key (deployed ctx n s total uri h)
            = (Ok value, deployed ctx n s total uri h)) as Hget.
  { intros key value E. unfold Storage.get. now rewrite E. }
  repeat split.
  - unfold name. mstep. rewrite (Hget nameKey n); [reflexivity|].
    cbn. now rewrite !lookup_insert_ne, lookup_insert_eq by discriminate.
  - unfold symbol. mstep. rewrite (Hget symbolKey s); [reflexivity|].
    cbn. now rewrite !lookup_insert_ne, lookup_insert_eq by discriminate.
  - unfold baseURI. mstep. rewrite (Hget baseURIKey uri); [reflexivity|].
    cbn. now rewrite !lookup_insert_ne, lookup_insert_eq by discriminate.
  - rewrite readMaxSupply_lookup. cbn.
    rewrite !lookup_insert_ne, lookup_insert_eq by discriminate.
    apply bytesToU64_u64ToBytes.
  - rewrite readCounter_lookup. cbn. now rewrite lookup_insert_eq.
  - unfold readOwner, answer. cbn.
    now rewrite lookup_insert_ne, lookup_insert_eq by discriminate.
  - intros owner id. apply readBalance_ext. cbn.
    now rewrite !lookup_insert_ne by discriminate.
  - intros tokenId. rewrite !readApproved_lookup. cbn.
    now rewrite !lookup_insert_ne by discriminate.
Qed.

Lemma constructor_deploys_witness :
  constructor (Scenario.asCaller "X") [] Scenario.minted = (Abort EmptyString, Scenario.minted)
  /\
  readCounter
    (snd (constructor Suite.ctx
            [ArgString "N"; ArgString "S"; ArgU64 9; ArgString "u/"] Scenario.minted)) = 0.
Proof.
  split.
  - apply (proj1 (constructor_deploys (Scenario.asCaller "X") "" "" 0 "" [] [] Scenario.minted)).
    reflexivity.
  - apply (proj2 (constructor_deploys Suite.ctx "N" "S" 9 "u/" [] [] Scenario.minted)).
    reflexivity.
Defined.

Lemma setURI_run (ctx : Context) (uri : string) (rest : list Arg) (h : Host) :
  setURI ctx (ArgString uri :: rest) h =
  if String.eqb (toString (caller ctx)) (readOwner h)
  then (Ok tt, uriSet uri h)
  else (Abort "The caller is not the owner of the contract", h).
Proof.
  unfold setURI, _onlyOwner. mstep. unfold readOwner, answer. cbn.
  now destruct (String.eqb _ _).
Qed.

(** X5.  [setURI] aborts, writing nothing, unless the caller is the
    stored owner; when it returns, every token's URI is the new base
    followed by the decimal token id, one event is logged and no entry
    but the base URI has changed. *)
Theorem setURI_outcome (ctx : Context) (uri : string) (rest : list Arg) (h : Host) :
  let call := setURI ctx (ArgString uri :: rest) h in
  let h' := snd call in
  (toString (caller ctx) <> readOwner h ->
   call = (Abort "The caller is not the owner of the contract", h))
  /\
  (toString (caller ctx) = readOwner h ->
   fst call = Ok tt /\
   (forall id : u64,
      tokenURI [ArgU64 id] h' = (Ok (stringToBytes (uri ++ u64_toString id)), h')) /\
   events h' = (events h ++ [setURIEvent uri])%list /\
   (forall key : string, key <> baseURIKey -> datastore h' !! key = datastore h !! key)).
Proof.
  intros call h'. subst h' call. rewrite setURI_run. split.
  - intros Hne. apply String.eqb_neq in Hne. now rewrite Hne.
  - intros ->. rewrite String.eqb_refl. cbn [fst snd]. repeat split.
    + intros id. unfold tokenURI. mstep. cbn. now rewrite lookup_insert_eq.
    + intros key Hne. cbn. now apply lookup_insert_ne.
Qed.

Lemma setURI_outcome_witness :
  setURI (Scenario.asCaller "2x") [ArgString "v/"] Suite.constructed
  = (Abort "The caller is not the owner of the contract", Suite.constructed)
  /\
  fst (setURI Suite.ctx [ArgString "v/"] Suite.constructed) = Ok tt.
Proof.
  split.
  - apply (proj1 (setURI_outcome (Scenario.asCaller "2x") "v/" [] Suite.constructed)).
    vm_compute. discriminate.
  - apply (proj2 (setURI_outcome Suite.ctx "v/" [] Suite.constructed)).
    vm_compute. reflexivity.
Defined.

(** X6.  After a construction only its caller can set the base URI:
    [setURI] returns exactly for the caller's address. *)
Theorem setURI_deployer_only (ctx ctx' : Context) (n s : string) (total : u64)
    (uri uri' : string) (h : Host) :
  callerHasWriteAccess ctx = true ->
  let h' :=
    snd (constructor ctx [ArgString n; ArgString s; ArgU64 total; ArgString uri] h) in
  fst (setURI ctx' [ArgString uri'] h') = Ok tt <-> caller ctx' = caller ctx.
Proof.
  intros Haccess h'. subst h'. rewrite constructor_run, Haccess. cbn [snd].
  rewrite setURI_run.
  replace (readOwner (deployed ctx n s total uri h)) with (toString (caller ctx)).
  - destruct (String.eqb_spec (toString (caller ctx')) (toString (caller ctx))) as [E|E];
      cbn [fst]; split; try easy.
    + intros _. destruct (caller ctx'), (caller ctx). cbn in E. now subst.
    + intros E'. rewrite E' in E. contradiction.
  - unfold readOwner, answer. cbn.
    now rewrite lookup_insert_ne, lookup_insert_eq by discriminate.
Qed.

Lemma setURI_deployer_only_witness :
  fst (setURI (Scenario.asCaller "2x") [ArgString "v/"]
         (snd (constructor Suite.ctx
                 [ArgString "N"; ArgString "S"; ArgU64 9; ArgString "u/"] blank))) = Ok tt
  <-> caller (Scenario.asCaller "2x") = caller Suite.ctx.
Proof.
  apply (setURI_deployer_only Suite.ctx (Scenario.asCaller "2x") "N" "S" 9 "u/" "v/" blank).
  reflexivity.
Defined.

(** X7.  Distinct token ids have distinct URIs, whatever the base URI,
    minted or not. *)
Theorem tokenURI_injective (i j : u64) (h : Host) :
  i <> j -> fst (tokenURI [ArgU64 i] h) <> fst (tokenURI [ArgU64 j] h).
Proof.
  unfold tokenURI. mstep. cbn. intros Hne H. injection H as H.
  apply append_inv_head in H. unfold u64_toString in H. now apply (inj pretty) in H.
Qed.

Lemma tokenURI_injective_witness :
  fst (tokenURI [ArgU64 1] Suite.constructed) <> fst (tokenURI [ArgU64 11] Suite.constructed).
Proof. apply (tokenURI_injective 1 11 Suite.constructed). discriminate. Defined.

(** ** The supply *)

Lemma mint_aborts_clean (args : list Arg) (h : Host) :
  succeeds (CallMint args) h = false -> snd (mint args h) = h.
Proof.
  unfold succeeds. cbn [exec].
  destruct args as [|[to|?] [|[?|amount] rest]];
    try (unfold mint; mstep; rewrite totalSupply_run, _currentSupply_run;
         now destruct (readCounter h <? _)).
  rewrite mint_run. now destruct (readCounter h <? readMaxSupply h).
Qed.

(** What a mint does to the state: nothing, or one more token. *)
Lemma mint_cases (args : list Arg) (h : Host) :
  (succeeds (CallMint args) h = false /\ snd (mint args h) = h)
  \/ (succeeds (CallMint args) h = true /\ readCounter h < readMaxSupply h /\
      exists (to : string) (amount : u64),
        snd (mint args h) = credited (mkAddress to) (readCounter h + 1) amount (incremented h)).
Proof.
  destruct (succeeds (CallMint args) h) eqn:Hok.
  - right. split; [reflexivity|]. unfold succeeds in Hok. cbn [exec] in Hok.
    destruct (mint args h) as [[[]|msg] h'] eqn:E; [|discriminate].
    pose proof (mint_ok_inv _ _ _ E) as Hlt. split; [assumption|].
    destruct (mint_ok_args _ _ _ E) as (to & amount & rest & ->).
    exists to, amount. rewrite mint_ok in E by assumption. now injection E as <-.
  - left. split; [reflexivity|]. now apply mint_aborts_clean.
Qed.

Lemma constructor_aborts_clean (ctx : Context) (args : list Arg) (h : Host) :
  succeeds (CallConstructor ctx args) h = false -> snd (constructor ctx args h) = h.
Proof.
  destruct (callerHasWriteAccess ctx) eqn:Haccess;
    [|intros _; now rewrite constructor_no_access].
  unfold succeeds. cbn [exec].
  destruct args as [|[n|?] [|[s|?] [|[?|total] [|[uri|?] rest]]]];
    unfold constructor; mstep; now rewrite Haccess.
Qed.

Lemma readMaxSupply_ext (h h' : Host) :
  datastore h' !! totalSupplyKey = datastore h !! totalSupplyKey ->
  readMaxSupply h' = readMaxSupply h.
Proof. intros E. now rewrite !readMaxSupply_lookup, E. Qed.

Lemma readCounter_ext (h h' : Host) :
  datastore h' !! counterKey = datastore h !! counterKey ->
  readCounter h' = readCounter h.
Proof. intros E. now rewrite !readCounter_lookup, E. Qed.

Lemma readMaxSupply_minted (to : Address) (id amount : u64) (h : Host) :
  readMaxSupply (credited to id amount (incremented h)) = readMaxSupply h.
Proof.
  apply readMaxSupply_ext. cbn. now rewrite !lookup_insert_ne by discriminate.
Qed.

(** The calls that are neither a construction nor a mint keep the counter
    and the maximum supply. *)
Lemma exec_frames_supply (c : Call) :
  isConstructor c = false ->
  (forall args, c <> CallMint args) ->
  frames counterKey (exec c) /\ frames totalSupplyKey (exec c).
Proof.
  intros Hc Hm.
  destruct c; try discriminate; cbn [exec]; try (now contradiction (Hm args));
    split; try apply frames_silent;
    unfold setURI, _onlyOwner, name, symbol, tokenURI, baseURI, transfer, _transfer,
      transferFrom, assertOnlyApproved, _removeApprovals, approve, assertOwnsSFT, _approve,
      getApproved, isApproved, balanceOf, totalSupply, currentSupply;
    frames_auto.
Qed.

(** What a call other than a construction does to the supply. *)
Lemma commit_supply (atomic : bool) (c : Call) (h : Host) :
  isConstructor c = false ->
  readMaxSupply (commit atomic c h) = readMaxSupply h /\
  (readCounter (commit atomic c h) = readCounter h
   \/ (readCounter h < readMaxSupply h /\ readCounter (commit atomic c h) = readCounter h + 1)).
Proof.
  intros Hc. unfold commit.
  destruct (atomic && negb (succeeds c h)); [now split; [|left]|].
  destruct c; try discriminate;
    try (destruct (exec_frames_supply _ Hc) as [Hcounter Hmax]; [discriminate|];
         split; [now apply readMaxSupply_ext | left; now apply readCounter_ext]).
  cbn [exec]. destruct (mint_cases args h) as [[_ ->]|(_ & Hlt & to & amount & ->)].
  - now split; [|left].
  - split; [apply readMaxSupply_minted|].
    right. split; [assumption | now apply readCounter_minted].
Qed.

(** X8.  No call but the constructor lowers the counter or changes the
    maximum supply: token ids are not handed out twice, and the cap is
    fixed at construction. *)
Theorem counter_never_decreases (atomic : bool) (c : Call) (h : Host) :
  isConstructor c = false ->
  readCounter h <= readCounter (commit atomic c h) /\
  readMaxSupply (commit atomic c h) = readMaxSupply h.
Proof.
  intros Hc. destruct (commit_supply atomic c h Hc) as [Hmax [E|[_ E]]];
    split; try assumption; rewrite E; lia.
Qed.

Lemma counter_never_decreases_witness :
  readCounter Scenario.minted
  <= readCounter (commit false (Scenario.mintTo "Y" 3) Scenario.minted) /\
  readMaxSupply (commit false (Scenario.mintTo "Y" 3) Scenario.minted)
  = readMaxSupply Scenario.minted.
Proof.
  apply (counter_never_decreases false (Scenario.mintTo "Y" 3) Scenario.minted).
  reflexivity.
Defined.

Lemma commit_keeps_cap (atomic : bool) (c : Call) (h : Host) :
  readCounter h <= readMaxSupply h ->
  readCounter (commit atomic c h) <= readMaxSupply (commit atomic c h).
Proof.
  intros Hinv. destruct (isConstructor c) eqn:Hc.
  - destruct c; try discriminate. unfold commit.
    destruct (succeeds (CallConstructor ctx args) h) eqn:Hok.
    + rewrite andb_false_r. revert Hok. unfold succeeds. cbn [exec].
      destruct (callerHasWriteAccess ctx) eqn:Haccess;
        [|now rewrite constructor_no_access].
      destruct args as [|[n|?] [|[s|?] [|[?|total] [|[uri|?] rest]]]];
        try (unfold constructor; mstep; rewrite Haccess; discriminate).
      rewrite constructor_run, Haccess. intros _. cbn [snd].
      replace (readCounter (deployed ctx n s total uri h)) with 0; [lia|].
      rewrite readCounter_lookup. cbn. now rewrite lookup_insert_eq.
    + destruct atomic; [assumption|]. cbn [andb exec].
      now rewrite constructor_aborts_clean.
  - destruct (commit_supply atomic c h Hc) as [-> [->|[Hlt ->]]]; lia.
Qed.

(** The supply entries stay stored. *)
Lemma length_le_encode (k : nat) (n : N) : String.length (le_encode k n) = k.
Proof. revert n. induction k as [|k IH]; intros n; cbn; [reflexivity | now rewrite IH]. Qed.

Lemma holdsU64_written (key : string) (n : u64) (h : Host) :
  datastore h !! key = Some (u64ToBytes n) -> holdsU64 key h = true.
Proof.
  intros E. unfold holdsU64. rewrite E. unfold u64ToBytes.
  now rewrite length_le_encode.
Qed.

Lemma supplyStored_ext (h h' : Host) :
  datastore h' !! counterKey = datastore h !! counterKey ->
  datastore h' !! totalSupplyKey = datastore h !! totalSupplyKey ->
  supplyStored h' = supplyStored h.
Proof. intros Hc Hm. unfold supplyStored, holdsU64. now rewrite Hc, Hm. Qed.

Lemma supplyStored_deployed (ctx : Context) (n s : string) (total : u64) (uri : string)
    (h : Host) :
  supplyStored (deployed ctx n s total uri h) = true.
Proof.
  unfold supplyStored. apply andb_true_iff. split.
  - apply holdsU64_written with (n := initCounter). cbn. apply lookup_insert_eq.
  - apply holdsU64_written with (n := total). cbn.
    now rewrite !lookup_insert_ne, lookup_insert_eq by discriminate.
Qed.

Lemma supplyStored_minted (to : Address) (id amount : u64) (h : Host) :
  supplyStored h = true -> supplyStored (credited to id amount (incremented h)) = true.
Proof.
  unfold supplyStored. intros H. apply andb_true_iff in H as [_ Hmax].
  apply andb_true_iff. split.
  - apply holdsU64_written with (n := u64_add (readCounter h) 1). cbn.
    rewrite lookup_insert_ne by (intros E; symmetry in E; now apply counterKey_not_balance in E).
    apply lookup_insert_eq.
  - rewrite <- Hmax. unfold holdsU64. cbn.
    now rewrite !lookup_insert_ne by discriminate.
Qed.

(** A construction that returns has decoded its four arguments. *)
Lemma constructor_returns (ctx : Context) (args : list Arg) (h : Host) :
  succeeds (CallConstructor ctx args) h = true ->
  exists (n s : string) (total : u64) (uri : string),
    snd (constructor ctx args h) = deployed ctx n s total uri h.
Proof.
  unfold succeeds. cbn [exec].
  destruct (callerHasWriteAccess ctx) eqn:Haccess;
    [|now rewrite constructor_no_access].
  destruct args as [|[n|?] [|[s|?] [|[?|total] [|[uri|?] rest]]]];
    try (unfold constructor; mstep; rewrite Haccess; discriminate).
  rewrite constructor_run, Haccess. intros _. now exists n, s, total, uri.
Qed.

Lemma commit_keeps_supplyStored (atomic : bool) (c : Call) (h : Host) :
  supplyStored h = true -> supplyStored (commit atomic c h) = true.
Proof.
  intros Hinv. unfold commit.
  destruct (atomic && negb (succeeds c h)); [assumption|].
  destruct (isConstructor c) eqn:Hc.
  - destruct c; try discriminate. cbn [exec].
    destruct (succeeds (CallConstructor ctx args) h) eqn:Hok.
    + destruct (constructor_returns _ _ _ Hok) as (n & s & total & uri & ->).
      apply supplyStored_deployed.
    + now rewrite constructor_aborts_clean.
  - destruct c; try discriminate;
      try (destruct (exec_frames_supply _ Hc) as [Hcounter Hmax]; [discriminate|];
           rewrite <- Hinv; now apply supplyStored_ext).
    cbn [exec]. destruct (mint_cases args h) as [[_ ->]|(_ & _ & to & amount & ->)].
    + assumption.
    + now apply supplyStored_minted.
Qed.

Lemma run_keeps_supplyStored (atomic : bool) (trace : list Call) :
  forall h : Host, supplyStored h = true -> supplyStored (run atomic trace h) = true.
Proof.
  induction trace as [|c trace IH]; intros h Hinv; [assumption|].
  rewrite run_cons. now apply IH, commit_keeps_supplyStored.
Qed.

Lemma run_keeps_cap (atomic : bool) (trace : list Call) :
  forall h : Host,
    readCounter h <= readMaxSupply h ->
    readCounter (run atomic trace h) <= readMaxSupply (run atomic trace h).
Proof.
  induction trace as [|c trace IH]; intros h Hinv; [assumption|].
  rewrite run_cons. now apply IH, commit_keeps_cap.
Qed.

(** X9.  The supply invariant of the deployed contract, on a host that
    keeps or discards the writes of aborted calls: the counter and the
    maximum supply are stored and the counter does not exceed the
    maximum supply.  A construction with well-typed arguments that
    returns establishes it, on whatever datastore it is called; every
    trace of well-typed calls keeps it. *)
Theorem counter_within_cap (atomic : bool) :
  (forall (c : Call) (h : Host),
     isConstructor c = true ->
     typed c = true ->
     succeeds c h = true ->
     supplyStored (commit atomic c h) = true /\
     readCounter (commit atomic c h) <= readMaxSupply (commit atomic c h))
  /\
  (forall (trace : list Call) (h : Host),
     supplyStored h = true ->
     forallb typed trace = true ->
     readCounter h <= readMaxSupply h ->
     supplyStored (run atomic trace h) = true /\
     readCounter (run atomic trace h) <= readMaxSupply (run atomic trace h)).
Proof.
  split.
  - intros c h Hc _ Hok. destruct c; try discriminate.
    rewrite commit_returned by assumption. cbn [exec].
    destruct (constructor_returns _ _ _ Hok) as (n & s & total & uri & ->).
    split; [apply supplyStored_deployed|].
    replace (readCounter (deployed ctx n s total uri h)) with 0; [lia|].
    rewrite readCounter_lookup. cbn. now rewrite lookup_insert_eq.
  - intros trace h Hstored _ Hinv.
    split; [now apply run_keeps_supplyStored | now apply run_keeps_cap].
Qed.

Lemma counter_within_cap_witness :
  (supplyStored (commit false (Scenario.deploy 2) blank) = true /\
   readCounter (commit false (Scenario.deploy 2) blank)
   <= readMaxSupply (commit false (Scenario.deploy 2) blank))
  /\
  (supplyStored
     (run false (mintCalls [("X", 1); ("Y", 1); ("Z", 1)])
        (commit false (Scenario.deploy 2) blank)) = true /\
   readCounter
     (run false (mintCalls [("X", 1); ("Y", 1); ("Z", 1)])
        (commit false (Scenario.deploy 2) blank))
   <= readMaxSupply
        (run false (mintCalls [("X", 1); ("Y", 1); ("Z", 1)])
           (commit false (Scenario.deploy 2) blank))).
Proof.
  split.
  - apply (proj1 (counter_within_cap false) (Scenario.deploy 2) blank); reflexivity.
  - apply (proj2 (counter_within_cap false) (mintCalls [("X", 1); ("Y", 1); ("Z", 1)])
             (commit false (Scenario.deploy 2) blank)).
    + vm_compute. reflexivity.
    + reflexivity.
    + vm_compute. discriminate.
Defined.

Lemma commit_mint (atomic : bool) (to : string) (amount : u64) (h : Host) :
  commit atomic (CallMint [ArgString to; ArgU64 amount]) h =
  if readCounter h <? readMaxSupply h
  then credited (mkAddress to) (readCounter h + 1) amount (incremented h)
  else h.
Proof.
  unfold commit, succeeds. cbn [exec].
  destruct (N.ltb_spec (readCounter h) (readMaxSupply h)) as [Hlt|Hge].
  - rewrite mint_ok by assumption. cbn [fst snd negb]. now rewrite andb_false_r.
  - rewrite mint_supply_reached by assumption. cbn [fst snd negb]. now destruct atomic.
Qed.

(** X10.  On a datastore that holds the counter and the maximum supply,
    N mints in a row, each given an address and an amount, raise the
    counter by N, up to the maximum supply, where the mints that are left
    abort; the maximum supply stays. *)
Theorem counter_after_mints (atomic : bool) (mints : list (string * u64)) (h : Host) :
  supplyStored h = true ->
  readCounter h <= readMaxSupply h ->
  readCounter (run atomic (mintCalls mints) h)
  = N.min (readCounter h + N.of_nat (length mints)) (readMaxSupply h)
  /\ readMaxSupply (run atomic (mintCalls mints) h) = readMaxSupply h.
Proof.
  intros _. revert h. induction mints as [|[to amount] mints IH]; intros h Hinv.
  - cbn. split; [lia | reflexivity].
  - cbn [mintCalls map fst snd]. rewrite run_cons. fold (mintCalls mints).
    rewrite commit_mint.
    destruct (N.ltb_spec (readCounter h) (readMaxSupply h)) as [Hlt|Hge].
    + destruct (IH (credited (mkAddress to) (readCounter h + 1) amount (incremented h)))
        as [-> ->];
        rewrite ?readCounter_minted, ?readMaxSupply_minted by assumption; [lia|].
      split; [|reflexivity]. cbn [length]. lia.
    + destruct (IH h Hinv) as [-> ->]. split; [|reflexivity]. cbn [length]. lia.
Qed.

Lemma counter_after_mints_witness :
  readCounter
    (run true (mintCalls [("X", 1); ("Y", 1); ("Z", 1); ("X", 1); ("Y", 1); ("Z", 1)])
       Scenario.minted)
  = N.min (readCounter Scenario.minted + N.of_nat 6) (readMaxSupply Scenario.minted)
  /\ readMaxSupply
       (run true (mintCalls [("X", 1); ("Y", 1); ("Z", 1); ("X", 1); ("Y", 1); ("Z", 1)])
          Scenario.minted)
     = readMaxSupply Scenario.minted.
Proof.
  apply (counter_after_mints true
           [("X", 1); ("Y", 1); ("Z", 1); ("X", 1); ("Y", 1); ("Z", 1)] Scenario.minted).
  - vm_compute. reflexivity.
  - vm_compute. discriminate.
Defined.

(** ** Transfers and approvals *)

(** X11.  A transfer of amount 0 returns for every caller, holder or not,
    and for every token, minted or not: it removes the token's approvals
    and leaves every balance as it reads. *)
Theorem transfer_zero_clears_approvals (ctx : Context) (to : string) (tokenId : u64)
    (h : Host) :
  let call := transfer ctx [ArgString to; ArgU64 tokenId; ArgU64 0] h in
  fst call = Ok tt /\
  datastore (snd call) !! approvalKey tokenId = None /\
  forall (owner : string) (id : u64), readBalance owner id (snd call) = readBalance owner id h.
Proof.
  intros call. subst call.
  assert (0 <= readBalance (toString (caller ctx)) tokenId h) as Hle by lia.
  rewrite transfer_ok by assumption. cbn [fst snd]. split; [reflexivity|]. split.
  - cbn. rewrite !lookup_insert_ne by apply balance_not_approvalKey.
    apply lookup_delete_eq.
  - intros owner id.
    rewrite readBalance_logged, readBalance_credited. cbn [toString].
    case_decide as Eto.
    + rewrite readBalance_debited.
      rewrite (readBalance_key owner to id tokenId h) by congruence.
      pose proof (readBalance_lt to tokenId h).
      pose proof (readBalance_lt (toString (caller ctx)) tokenId h).
      case_decide as Efrom.
      * apply getBalanceKey_same in Efrom. rewrite Efrom in *.
        rewrite readBalance_cleared, u64_sub_le by lia.
        rewrite u64_add_small; lia.
      * rewrite readBalance_cleared, u64_add_small; lia.
    + rewrite readBalance_debited.
      case_decide as Efrom; [|apply readBalance_cleared].
      rewrite readBalance_cleared.
      rewrite <- (address_eta (caller ctx)) in Efrom.
      rewrite (readBalance_key owner (toString (caller ctx)) id tokenId h) by congruence.
      pose proof (readBalance_lt (toString (caller ctx)) tokenId h).
      rewrite u64_sub_le; lia.
Qed.

(** X12.  [transferFrom] changes nothing but the token's approval entry:
    it aborts with NotApproved in the state it was called in, or returns
    having removed that entry; it logs no event and no balance reads
    differently afterwards. *)
Theorem transferFrom_only_clears (from to : string) (tokenId : u64) (h : Host) :
  let call := transferFrom [ArgString from; ArgString to; ArgU64 tokenId] h in
  (call = (Abort NotApproved, h)
   \/ call = (Ok tt, withDatastore h (delete (approvalKey tokenId) (datastore h))))
  /\ events (snd call) = events h
  /\ (forall key : string,
        key <> approvalKey tokenId -> datastore (snd call) !! key = datastore h !! key)
  /\ (forall (owner : string) (id : u64),
        readBalance owner id (snd call) = readBalance owner id h).
Proof.
  intros call. subst call. rewrite transferFrom_run.
  destruct (includes _ _); cbn [fst snd].
  - split; [now right|]. split; [reflexivity|]. split.
    + intros key Hne. cbn. apply lookup_delete_ne. congruence.
    + intros owner id. apply readBalance_cleared.
  - split; [now left|]. repeat split.
Qed.

Lemma transferFrom_only_clears_witness :
  datastore (snd (transferFrom [ArgString "2x"; ArgString "3x"; ArgU64 1] Scenario.approved))
    !! getBalanceKey (mkAddress "X") 1
  = datastore Scenario.approved !! getBalanceKey (mkAddress "X") 1.
Proof.
  apply (proj1 (proj2 (proj2
           (transferFrom_only_clears "2x" "3x" 1 Scenario.approved)))).
  discriminate.
Defined.

Lemma readApproved_cleared (tokenId : u64) (h : Host) :
  readApproved tokenId (cleared tokenId h) = EmptyString.
Proof. rewrite readApproved_lookup. cbn. now rewrite lookup_delete_eq. Qed.

Lemma includes_empty_fields (address : string) :
  includes (split "," EmptyString) address = String.eqb address EmptyString.
Proof. cbn. apply orb_false_r. Qed.

(** X13.  An approval is spent by the delegated transfer: after a
    [transferFrom] that returned, [getApproved] answers the empty string
    and a second [transferFrom] for the token aborts with NotApproved,
    whoever of the former grantees is named. *)
Theorem transferFrom_spends_approvals (from to : string) (tokenId : u64) (h : Host) :
  fst (transferFrom [ArgString from; ArgString to; ArgU64 tokenId] h) = Ok tt ->
  let h' := snd (transferFrom [ArgString from; ArgString to; ArgU64 tokenId] h) in
  getApproved [ArgU64 tokenId] h' = (Ok EmptyString, h') /\
  forall from' to' : string,
    from' <> EmptyString ->
    transferFrom [ArgString from'; ArgString to'; ArgU64 tokenId] h' = (Abort NotApproved, h').
Proof.
  rewrite transferFrom_run. destruct (includes _ _); [|discriminate].
  intros _ h'. subst h'. cbn [snd]. split.
  - now rewrite getApproved_run, readApproved_cleared.
  - intros from' to' Hne. rewrite transferFrom_run, readApproved_cleared.
    rewrite includes_empty_fields. apply String.eqb_neq in Hne. now rewrite Hne.
Qed.

Lemma transferFrom_spends_approvals_witness :
  getApproved [ArgU64 1]
    (snd (transferFrom [ArgString "2x"; ArgString "3x"; ArgU64 1] Scenario.approved))
  = (Ok EmptyString,
     snd (transferFrom [ArgString "2x"; ArgString "3x"; ArgU64 1] Scenario.approved))
  /\
  transferFrom [ArgString "2x"; ArgString "3x"; ArgU64 1]
    (snd (transferFrom [ArgString "2x"; ArgString "3x"; ArgU64 1] Scenario.approved))
  = (Abort NotApproved,
     snd (transferFrom [ArgString "2x"; ArgString "3x"; ArgU64 1] Scenario.approved)).
Proof.
  pose proof (transferFrom_spends_approvals "2x" "3x" 1 Scenario.approved) as H.
  destruct H as [Hget Hagain]; [vm_compute; reflexivity|].
  split; [exact Hget|]. apply Hagain. discriminate.
Defined.

(** Splitting at a separator splits the parts. *)
Lemma split_app_sep (sep : ascii) (a b : string) :
  split sep (a ++ String sep b) = (split sep a ++ split sep b)%list.
Proof.
  induction a as [|c a IH].
  - rewrite append_nil_l. apply split_cons_sep.
  - rewrite append_cons. cbn [split]. rewrite IH.
    destruct (Ascii.eqb c sep); [reflexivity|].
    pose proof (split_not_nil sep a). now destruct (split sep a).
Qed.

Lemma includes_app (l1 l2 : list string) (x : string) :
  includes (l1 ++ l2) x = includes l1 x || includes l2 x.
Proof. apply existsb_app. Qed.

Lemma readApproved_granted (tokenId : u64) (to : string) (h : Host) :
  readApproved tokenId (granted tokenId to h) =
  match datastore h !! approvalKey tokenId with
  | Some stored => stored ++ "," ++ to
  | None => to
  end.
Proof. rewrite readApproved_lookup. cbn. now rewrite lookup_insert_eq. Qed.

Lemma approve_ok_state (ctx : Context) (tokenId : u64) (to : string) (h : Host) :
  fst (approve ctx [ArgU64 tokenId; ArgString to] h) = Ok tt ->
  snd (approve ctx [ArgU64 tokenId; ArgString to] h)
  = logged (approveEvent ctx to tokenId) (granted tokenId to h).
Proof. rewrite approve_run. repeat (case_bool; try discriminate). reflexivity. Qed.

(** X14.  After an approval that returned, the grantee passes
    [isApproved] when its address holds no comma, and so does every
    non-empty address that passed before. *)
Theorem approve_then_isApproved (ctx : Context) (tokenId : u64) (to : string) (h : Host) :
  fst (approve ctx [ArgU64 tokenId; ArgString to] h) = Ok tt ->
  let h' := snd (approve ctx [ArgU64 tokenId; ArgString to] h) in
  (occurs "," to = false -> isApproved [ArgString to; ArgU64 tokenId] h' = (Ok true, h'))
  /\
  (forall address : string,
     address <> EmptyString ->
     isApproved [ArgString address; ArgU64 tokenId] h = (Ok true, h) ->
     isApproved [ArgString address; ArgU64 tokenId] h' = (Ok true, h')).
Proof.
  intros Hok h'. subst h'. rewrite approve_ok_state by assumption.
  assert (forall address,
            isApproved [ArgString address; ArgU64 tokenId]
              (logged (approveEvent ctx to tokenId) (granted tokenId to h))
            = (Ok (includes (split "," (readApproved tokenId (granted tokenId to h))) address),
               logged (approveEvent ctx to tokenId) (granted tokenId to h))) as Hrun
    by (intros; now rewrite isApproved_run).
  rewrite readApproved_granted in Hrun. split.
  - intros Hfree. rewrite Hrun. do 2 f_equal.
    destruct (datastore h !! approvalKey tokenId) as [stored|].
    + change ("," ++ to) with (String "," to).
      rewrite split_app_sep, includes_app, (split_single "," to Hfree).
      cbn. now rewrite String.eqb_refl, orb_true_r.
    + rewrite (split_single "," to Hfree). cbn. now rewrite String.eqb_refl.
  - intros address Hne. rewrite isApproved_run, readApproved_lookup, Hrun.
    intros Hbefore. injection Hbefore as Hbefore. do 2 f_equal.
    destruct (datastore h !! approvalKey tokenId) as [stored|].
    + change ("," ++ to) with (String "," to).
      rewrite split_app_sep, includes_app. cbn [default from_option id] in Hbefore.
      now rewrite Hbefore.
    + cbn in Hbefore. rewrite orb_false_r in Hbefore.
      apply String.eqb_eq in Hbefore. contradiction.
Qed.

Lemma approve_then_isApproved_witness :
  isApproved [ArgString "3x"; ArgU64 1]
    (snd (approve (Scenario.asCaller "X") [ArgU64 1; ArgString "3x"] Scenario.approved))
  = (Ok true,
     snd (approve (Scenario.asCaller "X") [ArgU64 1; ArgString "3x"] Scenario.approved))
  /\
  isApproved [ArgString "2x"; ArgU64 1]
    (snd (approve (Scenario.asCaller "X") [ArgU64 1; ArgString "3x"] Scenario.approved))
  = (Ok true,
     snd (approve (Scenario.asCaller "X") [ArgU64 1; ArgString "3x"] Scenario.approved)).
Proof.
  pose proof (approve_then_isApproved (Scenario.asCaller "X") 1 "3x" Scenario.approved) as H.
  destruct H as [Hnew Hold]; [vm_compute; reflexivity|].
  split.
  - apply Hnew. reflexivity.
  - apply Hold; [discriminate | vm_compute; reflexivity].
Defined.

Lemma readApproved_ext (tokenId : u64) (h h' : Host) :
  datastore h' !! approvalKey tokenId = datastore h !! approvalKey tokenId ->
  readApproved tokenId h' = readApproved tokenId h.
Proof. intros E. now rewrite !readApproved_lookup, E. Qed.

(** X15.  The approvals of a token are touched by no approval, transfer
    or delegated transfer of another token, whether the call returns or
    aborts. *)
Theorem approvals_per_token (ctx : Context) (from to : string) (t t' amount : u64)
    (h : Host) :
  t <> t' ->
  readApproved t' (snd (approve ctx [ArgU64 t; ArgString to] h)) = readApproved t' h /\
  readApproved t' (snd (transfer ctx [ArgString to; ArgU64 t; ArgU64 amount] h))
  = readApproved t' h /\
  readApproved t' (snd (transferFrom [ArgString from; ArgString to; ArgU64 t] h))
  = readApproved t' h.
Proof.
  intros Hne.
  assert (approvalKey t <> approvalKey t') as Hkey
    by (intros E; now apply approvalKey_inj in E).
  repeat split; apply readApproved_ext.
  - rewrite approve_run. repeat (case_bool; try reflexivity).
    cbn. now apply lookup_insert_ne.
  - rewrite transfer_run. case_bool; cbn.
    + rewrite !lookup_insert_ne by apply balance_not_approvalKey.
      now apply lookup_delete_ne.
    + now apply lookup_delete_ne.
  - rewrite transferFrom_run. case_bool; [|reflexivity].
    cbn. now apply lookup_delete_ne.
Qed.

Lemma approvals_per_token_witness :
  readApproved 1
    (snd (approve (Scenario.asCaller "X") [ArgU64 2; ArgString "3x"] Scenario.approved))
  = readApproved 1 Scenario.approved /\
  readApproved 1
    (snd (transfer (Scenario.asCaller "X") [ArgString "3x"; ArgU64 2; ArgU64 0]
            Scenario.approved))
  = readApproved 1 Scenario.approved /\
  readApproved 1
    (snd (transferFrom [ArgString ""; ArgString "3x"; ArgU64 2] Scenario.approved))
  = readApproved 1 Scenario.approved.
Proof.
  apply (approvals_per_token (Scenario.asCaller "X") "" "3x" 2 1 0 Scenario.approved).
  discriminate.
Defined.

Lemma transfer_other_balance (ctx : Context) (to : string) (tokenId amount : u64) (h : Host)
    (owner : string) (id : u64) :
  getBalanceKey (caller ctx) tokenId <> getBalanceKey (mkAddress owner) id ->
  getBalanceKey (mkAddress to) tokenId <> getBalanceKey (mkAddress owner) id ->
  readBalance owner id (snd (transfer ctx [ArgString to; ArgU64 tokenId; ArgU64 amount] h))
  = readBalance owner id h.
Proof.
  intros Hfrom Hto. rewrite transfer_run. case_bool; cbn [snd].
  - rewrite readBalance_logged, readBalance_credited, decide_False by assumption.
    rewrite readBalance_debited, decide_False by assumption.
    apply readBalance_cleared.
  - apply readBalance_cleared.
Qed.

(** X16.  A transfer and the transfer back undo each other on the
    balances: when A sends an amount it holds to another address B, and
    the credit of B does not overflow, B can send it back, and then every
    balance reads as before the two calls. *)
Theorem transfer_there_and_back (a b : Context) (tokenId amount : u64) (h : Host) :
  toString (caller a) <> toString (caller b) ->
  amount <= readBalance (toString (caller a)) tokenId h ->
  readBalance (toString (caller b)) tokenId h + amount < U64_MODULUS ->
  let there := transfer a [ArgString (toString (caller b)); ArgU64 tokenId; ArgU64 amount] h in
  let back :=
    transfer b [ArgString (toString (caller a)); ArgU64 tokenId; ArgU64 amount] (snd there) in
  fst there = Ok tt /\ fst back = Ok tt /\
  forall (owner : string) (id : u64), readBalance owner id (snd back) = readBalance owner id h.
Proof.
  intros Hne Hle Hfit there back. subst there back.
  set (A := toString (caller a)) in *. set (B := toString (caller b)) in *.
  set (h1 := snd (transfer a [ArgString B; ArgU64 tokenId; ArgU64 amount] h)).
  assert (readBalance A tokenId h1 = readBalance A tokenId h - amount) as HA
    by now apply transfer_sender_balance.
  assert (readBalance B tokenId h1 = readBalance B tokenId h + amount) as HB.
  { unfold h1. rewrite transfer_recipient_balance by assumption. now apply N.mod_small. }
  assert (amount <= readBalance B tokenId h1) as Hle1 by lia.
  assert (B <> A) as Hne1 by congruence.
  pose proof (readBalance_lt A tokenId h) as HltA.
  split; [unfold A, B; now rewrite transfer_ok|].
  split; [unfold A, B; now rewrite transfer_ok|].
  intros owner id.
  destruct (decide (getBalanceKey (caller b) tokenId = getBalanceKey (mkAddress owner) id))
    as [Eb|Eb];
    [|destruct (decide (getBalanceKey (mkAddress A) tokenId = getBalanceKey (mkAddress owner) id))
        as [Ea|Ea]].
  - rewrite <- (address_eta (caller b)) in Eb. fold B in Eb.
    rewrite !(readBalance_key owner B id tokenId) by congruence.
    unfold B at 1. rewrite transfer_sender_balance by assumption. fold B. lia.
  - rewrite !(readBalance_key owner A id tokenId) by congruence.
    rewrite transfer_recipient_balance by assumption.
    rewrite HA, N.mod_small; lia.
  - rewrite transfer_other_balance by assumption.
    unfold h1. apply transfer_other_balance.
    + unfold A in Ea. now rewrite address_eta in Ea.
    + rewrite <- (address_eta (caller b)) in Eb. exact Eb.
Qed.

Lemma transfer_there_and_back_witness :
  fst (transfer (Scenario.asCaller "X") [ArgString "2x"; ArgU64 1; ArgU64 2] Scenario.minted)
  = Ok tt /\
  fst (transfer (Scenario.asCaller "2x") [ArgString "X"; ArgU64 1; ArgU64 2]
         (snd (transfer (Scenario.asCaller "X") [ArgString "2x"; ArgU64 1; ArgU64 2]
                 Scenario.minted)))
  = Ok tt /\
  forall (owner : string) (id : u64),
    readBalance owner id
      (snd (transfer (Scenario.asCaller "2x") [ArgString "X"; ArgU64 1; ArgU64 2]
              (snd (transfer (Scenario.asCaller "X") [ArgString "2x"; ArgU64 1; ArgU64 2]
                      Scenario.minted))))
    = readBalance owner id Scenario.minted.
Proof.
  apply (transfer_there_and_back (Scenario.asCaller "X") (Scenario.asCaller "2x") 1 2
           Scenario.minted).
  - discriminate.
  - vm_compute. discriminate.
  - vm_compute. reflexivity.
Defined.

(** ** Views, aborts and events *)

Lemma silent_pure {A} (m : M A) (h : Host) : snd (m h) = h -> snd (silent m h) = h.
Proof. unfold silent, bind, ret. now destruct (m h) as [[a|msg] h']. Qed.

Lemma tokenURI_pure (args : list Arg) (h : Host) : snd (tokenURI args h) = h.
Proof. now destruct args as [|[?|id] rest]. Qed.

Lemma getApproved_pure (args : list Arg) (h : Host) : snd (getApproved args h) = h.
Proof. now destruct args as [|[?|id] rest]. Qed.

Lemma isApproved_pure (args : list Arg) (h : Host) : snd (isApproved args h) = h.
Proof. now destruct args as [|[address|?] [|[?|id] rest]]. Qed.

(** X17.  The nine views write nothing and log nothing, whatever their
    arguments, well-formed or not. *)
Theorem views_read_only (args : list Arg) (h : Host) :
  snd (name h) = h /\ snd (symbol h) = h /\ snd (baseURI h) = h /\
  snd (totalSupply h) = h /\ snd (currentSupply h) = h /\
  snd (tokenURI args h) = h /\ snd (getApproved args h) = h /\
  snd (isApproved args h) = h /\ snd (balanceOf args h) = h.
Proof.
  repeat split;
    auto using tokenURI_pure, getApproved_pure, isApproved_pure, balanceOf_pure.
Qed.

Lemma setURI_aborts_clean (ctx : Context) (args : list Arg) (h : Host) :
  succeeds (CallSetURI ctx args) h = false -> snd (setURI ctx args h) = h.
Proof.
  unfold succeeds. cbn [exec]. destruct args as [|[uri|?] rest]; try reflexivity.
  rewrite setURI_run. now case_bool.
Qed.

Lemma transfer_aborts_in (ctx : Context) (args : list Arg) (h : Host) :
  succeeds (CallTransfer ctx args) h = false ->
  snd (transfer ctx args h) = abortState (CallTransfer ctx args) h.
Proof.
  unfold succeeds. cbn [exec].
  destruct args as [|[to|?] [|[?|tokenId] [|[?|amount] rest]]]; try reflexivity.
  rewrite transfer_run. cbn [abortState].
  now destruct (amount <=? readBalance (toString (caller ctx)) tokenId h).
Qed.

Lemma transferFrom_aborts_clean (args : list Arg) (h : Host) :
  succeeds (CallTransferFrom args) h = false -> snd (transferFrom args h) = h.
Proof.
  unfold succeeds. cbn [exec].
  destruct args as [|[from|?] [|[to|?] [|[?|tokenId] rest]]]; try reflexivity.
  rewrite transferFrom_run. now destruct (includes _ _).
Qed.

(** The state in which a call aborts. *)
Lemma exec_aborts_in (c : Call) (h : Host) :
  succeeds c h = false -> snd (exec c h) = abortState c h.
Proof.
  intros Hfail.
  destruct c; cbn [exec];
    try (apply silent_pure;
         auto using tokenURI_pure, getApproved_pure, isApproved_pure, balanceOf_pure).
  - now apply constructor_aborts_clean.
  - now apply setURI_aborts_clean.
  - now apply mint_aborts_clean.
  - now apply transfer_aborts_in.
  - now apply transferFrom_aborts_clean.
  - now apply approve_aborts_clean.
Qed.

Lemma abortState_cases (c : Call) (h : Host) :
  abortState c h = h \/ exists tokenId : u64, abortState c h = cleared tokenId h.
Proof.
  destruct c; try (now left).
  destruct args as [|[to|?] [|[?|tokenId] [|[?|amount] rest]]]; try (now left).
  right. now exists tokenId.
Qed.

(** X18.  A well-typed call on the deployed contract that aborts has
    changed no balance and no supply and has logged nothing.  It leaves
    the state it was called in, except a [transfer] that has decoded its
    three arguments, which has removed the approvals of its token before
    it aborts. *)
Theorem aborted_call_writes (c : Call) (h : Host) :
  typed c = true ->
  supplyStored h = true ->
  succeeds c h = false ->
  let h' := snd (exec c h) in
  h' = abortState c h /\
  events h' = events h /\
  readCounter h' = readCounter h /\
  readMaxSupply h' = readMaxSupply h /\
  (forall (owner : string) (id : u64), readBalance owner id h' = readBalance owner id h).
Proof.
  intros _ _ Hfail h'. subst h'. rewrite exec_aborts_in by assumption.
  split; [reflexivity|].
  destruct (abortState_cases c h) as [->|[tokenId ->]]; [now repeat split|].
  split; [reflexivity|]. split; [|split].
  - apply readCounter_ext. cbn. now apply lookup_delete_ne.
  - apply readMaxSupply_ext. cbn. now apply lookup_delete_ne.
  - intros owner id. apply readBalance_cleared.
Qed.

Lemma aborted_call_writes_witness :
  snd (exec (CallTransfer (Scenario.asCaller "X") [ArgString "Y"; ArgU64 1; ArgU64 3])
         Scenario.approved)
  = cleared 1 Scenario.approved /\
  events
    (snd (exec (CallTransfer (Scenario.asCaller "X") [ArgString "Y"; ArgU64 1; ArgU64 3])
            Scenario.approved))
  = events Scenario.approved.
Proof.
  pose proof
    (aborted_call_writes
       (CallTransfer (Scenario.asCaller "X") [ArgString "Y"; ArgU64 1; ArgU64 3])
       Scenario.approved) as H.
  destruct H as (Hstate & Hevents & _);
    [reflexivity | vm_compute; reflexivity | vm_compute; reflexivity |].
  split; [exact Hstate | exact Hevents].
Defined.

Lemma exec_returns_logging (c : Call) (h : Host) :
  succeeds c h = true -> events (snd (exec c h)) = (events h ++ eventOf c)%list.
Proof.
  unfold succeeds.
  destruct c; cbn [exec eventOf];
    try (intros _; rewrite silent_pure, app_nil_r;
         auto using tokenURI_pure, getApproved_pure, isApproved_pure, balanceOf_pure).
  - destruct (callerHasWriteAccess ctx) eqn:Haccess;
      [|now rewrite constructor_no_access].
    destruct args as [|[n|?] [|[s|?] [|[?|total] [|[uri|?] rest]]]];
      try (unfold constructor; mstep; rewrite Haccess; discriminate).
    now rewrite constructor_run, Haccess.
  - destruct args as [|[uri|?] rest]; try discriminate.
    rewrite setURI_run. now case_bool.
  - intros Hok.
    destruct (mint_cases args h) as [[Hfail _]|(_ & _ & to & amount & ->)].
    + unfold succeeds in Hfail. cbn [exec] in Hfail.
      destruct (fst (mint args h)); discriminate.
    + destruct args as [|[?|?] [|[?|?] ?]]; cbn; now rewrite app_nil_r.
  - destruct args as [|[to|?] [|[?|tokenId] [|[?|amount] rest]]]; try discriminate.
    rewrite transfer_run.
    now destruct (amount <=? readBalance (toString (caller ctx)) tokenId h).
  - destruct args as [|[from|?] [|[to|?] [|[?|tokenId] rest]]]; try discriminate.
    rewrite transferFrom_run. destruct (includes _ _); [|discriminate].
    intros _. cbn. now rewrite app_nil_r.
  - destruct args as [|[?|tokenId] [|[to|?] rest]]; try discriminate.
    + unfold approve, assertOwnsSFT. mstep. rewrite _balance_run.
      now destruct (1 <=? _).
    + rewrite approve_run. now repeat (case_bool; try discriminate).
    + unfold approve, assertOwnsSFT. mstep. rewrite _balance_run.
      now destruct (1 <=? _).
Qed.

(** X19.  The event log of a well-typed call on the deployed contract:
    a construction, a change of the base URI, a transfer and an approval
    that return append their one event, with the text built from their
    arguments; a mint, a delegated transfer, a view and every call that
    aborts append nothing. *)
Theorem call_logs (c : Call) (h : Host) :
  typed c = true ->
  supplyStored h = true ->
  events (snd (exec c h))
  = (events h ++ if succeeds c h then eventOf c else [])%list.
Proof.
  intros _ _. destruct (succeeds c h) eqn:Hok.
  - now apply exec_returns_logging.
  - rewrite exec_aborts_in, app_nil_r by assumption.
    now destruct (abortState_cases c h) as [->|[tokenId ->]].
Qed.

Lemma call_logs_witness :
  events (snd (exec (CallApprove (Scenario.asCaller "X") [ArgU64 1; ArgString "2x"])
                 Scenario.minted))
  = (events Scenario.minted
     ++ if succeeds (CallApprove (Scenario.asCaller "X") [ArgU64 1; ArgString "2x"])
             Scenario.minted
        then eventOf (CallApprove (Scenario.asCaller "X") [ArgU64 1; ArgString "2x"])
        else [])%list.
Proof.
  apply (call_logs (CallApprove (Scenario.asCaller "X") [ArgU64 1; ArgString "2x"])
           Scenario.minted).
  - reflexivity.
  - vm_compute. reflexivity.
Defined.

(** ** Footprints *)

Lemma _mint_run (ctx : Context) (to : Address) (id amount : u64) (h : Host) :
  _mint ctx to id amount h = (Ok tt, credited to id amount h).
Proof. unfold _mint. mstep. now rewrite _balance_run, _setBalance_run. Qed.

(** X20.  What the two writers of the registry can touch, whether they
    return or abort: [approve] only the approval entry of its token;
    [transfer] only that entry and the balance entries of the sender and
    of the recipient for its token. *)
Theorem write_footprints (ctx : Context) (to : string) (tokenId amount : u64) (h : Host)
    (key : string) :
  key <> approvalKey tokenId ->
  datastore (snd (approve ctx [ArgU64 tokenId; ArgString to] h)) !! key = datastore h !! key
  /\
  (key <> getBalanceKey (caller ctx) tokenId ->
   key <> getBalanceKey (mkAddress to) tokenId ->
   datastore (snd (transfer ctx [ArgString to; ArgU64 tokenId; ArgU64 amount] h)) !! key
   = datastore h !! key).
Proof.
  intros Hkey. split.
  - rewrite approve_run. repeat (case_bool; try reflexivity).
    cbn. apply lookup_insert_ne. congruence.
  - intros Hfrom Hto. rewrite transfer_run. case_bool; cbn.
    + rewrite !lookup_insert_ne by congruence. apply lookup_delete_ne. congruence.
    + apply lookup_delete_ne. congruence.
Qed.

Lemma write_footprints_witness :
  datastore (snd (approve (Scenario.asCaller "X") [ArgU64 1; ArgString "3x"] Scenario.approved))
    !! counterKey
  = datastore Scenario.approved !! counterKey
  /\
  datastore
    (snd (transfer (Scenario.asCaller "X") [ArgString "3x"; ArgU64 1; ArgU64 1]
            Scenario.approved))
    !! counterKey
  = datastore Scenario.approved !! counterKey.
Proof.
  pose proof (write_footprints (Scenario.asCaller "X") "3x" 1 1 Scenario.approved counterKey)
    as H.
  destruct H as [Happrove Htransfer]; [discriminate|].
  split; [exact Happrove|]. apply Htransfer; discriminate.
Defined.

Lemma getBalanceKey_inj_id (a : Address) (i j : u64) :
  getBalanceKey a i = getBalanceKey a j -> i = j.
Proof.
  unfold getBalanceKey, stringToBytes. intros H.
  do 2 apply append_inv_head in H.
  unfold u64_toString in H. now apply (inj pretty) in H.
Qed.

(** X21.  Minting is not idempotent: two mints to one address, with room
    for both under the maximum supply, create two tokens, and each
    credits the recipient's balance of its own token. *)
Theorem two_mints_two_tokens (atomic : bool) (to : string) (first second : u64) (h : Host) :
  readCounter h + 1 < readMaxSupply h ->
  let h' := run atomic (mintCalls [(to, first); (to, second)]) h in
  readCounter h' = readCounter h + 2 /\
  readBalance to (readCounter h + 1) h'
  = (readBalance to (readCounter h + 1) h + first) mod U64_MODULUS /\
  readBalance to (readCounter h + 2) h'
  = (readBalance to (readCounter h + 2) h + second) mod U64_MODULUS.
Proof.
  intros Hroom h'. subst h'.
  cbn [mintCalls map fst snd]. rewrite !run_cons. cbn [run fold_left].
  rewrite (commit_mint atomic to first h).
  destruct (N.ltb_spec (readCounter h) (readMaxSupply h)) as [Hlt|]; [|lia].
  set (h1 := credited (mkAddress to) (readCounter h + 1) first (incremented h)).
  assert (readCounter h1 = readCounter h + 1) as Hc1 by now apply readCounter_minted.
  assert (readMaxSupply h1 = readMaxSupply h) as Hm1 by apply readMaxSupply_minted.
  rewrite commit_mint, Hc1, Hm1.
  destruct (N.ltb_spec (readCounter h + 1) (readMaxSupply h)) as [Hlt1|]; [|lia].
  assert (forall i j : u64, i <> j ->
            getBalanceKey (mkAddress to) i <> getBalanceKey (mkAddress to) j) as Hkeys
    by (intros i j Hij E; now apply getBalanceKey_inj_id in E).
  replace (readCounter h + 1 + 1) with (readCounter h + 2) by lia.
  split; [|split].
  - rewrite readCounter_credited, readCounter_incremented, Hc1.
    pose proof (readMaxSupply_lt h). rewrite u64_add_small; lia.
  - rewrite readBalance_credited, decide_False by (apply Hkeys; lia).
    rewrite readBalance_incremented. unfold h1.
    rewrite readBalance_credited, decide_True by reflexivity.
    cbn [toString]. now rewrite readBalance_incremented.
  - rewrite readBalance_credited, decide_True by reflexivity.
    cbn [toString]. rewrite readBalance_incremented. unfold h1.
    rewrite readBalance_credited, decide_False by (apply Hkeys; lia).
    now rewrite readBalance_incremented.
Qed.

Lemma two_mints_two_tokens_witness :
  readCounter (run false (mintCalls [("X", 2); ("X", 2)]) Scenario.minted)
  = readCounter Scenario.minted + 2 /\
  readBalance "X" (readCounter Scenario.minted + 1)
    (run false (mintCalls [("X", 2); ("X", 2)]) Scenario.minted)
  = (readBalance "X" (readCounter Scenario.minted + 1) Scenario.minted + 2) mod U64_MODULUS /\
  readBalance "X" (readCounter Scenario.minted + 2)
    (run false (mintCalls [("X", 2); ("X", 2)]) Scenario.minted)
  = (readBalance "X" (readCounter Scenario.minted + 2) Scenario.minted + 2) mod U64_MODULUS.
Proof.
  apply (two_mints_two_tokens false "X" 2 2 Scenario.minted).
  vm_compute. reflexivity.
Defined.

(** ** Along a trace *)

Lemma isApproved_after_approvals_witness :
  isApproved [ArgString "3x"; ArgU64 1] (run false Scenario.approvals Scenario.minted) =
  (Ok match grantees false 1 Scenario.approvals Scenario.minted with
      | [] => String.eqb "3x" EmptyString
      | approvals => includes approvals "3x"
      end, run false Scenario.approvals Scenario.minted).
Proof.
  apply (isApproved_after_approvals false 1 Scenario.approvals Scenario.minted "3x");
    try reflexivity; vm_compute; reflexivity.
Defined.

Lemma balanceOf_unwritten_witness :
  balanceOf [ArgString "Y"; ArgU64 2]
    (run true [Scenario.mintTo "X" 2; Scenario.mintTo "Y" 1] Scenario.minted)
  = (Ok (u64ToBytes 0),
     run true [Scenario.mintTo "X" 2; Scenario.mintTo "Y" 1] Scenario.minted).
Proof.
  apply (balanceOf_unwritten true "Y" 2
           [Scenario.mintTo "X" 2; Scenario.mintTo "Y" 1] Scenario.minted).
  - vm_compute. reflexivity.
  - reflexivity.
  - vm_compute. reflexivity.
  - vm_compute. intros [H|[H|[]]]; discriminate.
Defined.

(** ** Edge cases *)

(** The fields of a split hold no separator. *)
Lemma split_fields_free (sep : ascii) (s field : string) :
  In field (split sep s) -> occurs sep field = false.
Proof.
  revert field. induction s as [|c s IH]; intros field Hin.
  - destruct Hin as [<-|[]]. reflexivity.
  - cbn [split] in Hin. destruct (Ascii.eqb c sep) eqn:Hc.
    + destruct Hin as [<-|Hin]; [reflexivity | now apply IH].
    + pose proof (split_not_nil sep s) as Hnil.
      destruct (split sep s) as [|first fields]; [contradiction|].
      destruct Hin as [<-|Hin].
      * cbn [occurs]. rewrite Hc. apply IH. now left.
      * apply IH. now right.
Qed.

Lemma includes_In (l : list string) (x : string) : includes l x = true -> In x l.
Proof.
  unfold includes. rewrite existsb_exists. intros (y & Hin & E).
  apply String.eqb_eq in E. now subst y.
Qed.

(** X22.  An address that holds a comma never passes [isApproved],
    whatever was approved, itself included; [transferFrom] in its name
    aborts with NotApproved and writes nothing. *)
Theorem comma_address_never_approved (address to : string) (tokenId : u64) (h : Host) :
  occurs "," address = true ->
  isApproved [ArgString address; ArgU64 tokenId] h = (Ok false, h) /\
  transferFrom [ArgString address; ArgString to; ArgU64 tokenId] h = (Abort NotApproved, h).
Proof.
  intros Hcomma.
  assert (includes (split "," (readApproved tokenId h)) address = false) as Hout.
  { destruct (includes _ address) eqn:E; [|reflexivity].
    apply includes_In, split_fields_free in E. congruence. }
  now rewrite isApproved_run, transferFrom_run, Hout.
Qed.

Lemma comma_address_never_approved_witness :
  isApproved [ArgString "2x,3x"; ArgU64 1]
    (snd (approve (Scenario.asCaller "X") [ArgU64 1; ArgString "2x,3x"] Scenario.minted))
  = (Ok false,
     snd (approve (Scenario.asCaller "X") [ArgU64 1; ArgString "2x,3x"] Scenario.minted))
  /\
  transferFrom [ArgString "2x,3x"; ArgString "Y"; ArgU64 1]
    (snd (approve (Scenario.asCaller "X") [ArgU64 1; ArgString "2x,3x"] Scenario.minted))
  = (Abort NotApproved,
     snd (approve (Scenario.asCaller "X") [ArgU64 1; ArgString "2x,3x"] Scenario.minted)).
Proof.
  apply (comma_address_never_approved "2x,3x" "Y" 1
           (snd (approve (Scenario.asCaller "X") [ArgU64 1; ArgString "2x,3x"]
                   Scenario.minted))).
  reflexivity.
Defined.

(** X23.  Token ids start at 1 after every construction: the first mint
    after a construction with a positive maximum supply creates token 1,
    and credits the recipient's balance entry for token 1 as the
    construction found it. *)
Theorem first_mint_after_construction (ctx : Context) (n s : string) (total : u64)
    (uri to : string) (amount : u64) (h : Host) :
  callerHasWriteAccess ctx = true ->
  0 < total mod U64_MODULUS ->
  let h' :=
    snd (constructor ctx [ArgString n; ArgString s; ArgU64 total; ArgString uri] h) in
  let call := mint [ArgString to; ArgU64 amount] h' in
  fst call = Ok tt /\
  readCounter (snd call) = 1 /\
  readBalance to 1 (snd call) = (readBalance to 1 h + amount) mod U64_MODULUS.
Proof.
  intros Haccess Hpos h' call. subst call.
  destruct (proj2 (constructor_deploys_aux ctx n s total uri h) Haccess)
    as (Hmax & Hcounter & Hbalance).
  fold h' in Hmax, Hcounter, Hbalance.
  assert (readCounter h' < readMaxSupply h') as Hlt by (rewrite Hmax, Hcounter; lia).
  rewrite mint_ok by assumption. cbn [fst snd].
  split; [reflexivity|]. split.
  - rewrite readCounter_minted by assumption. now rewrite Hcounter.
  - rewrite Hcounter. cbn [N.add].
    rewrite readBalance_credited, decide_True by reflexivity.
    cbn [toString]. now rewrite readBalance_incremented, Hbalance.
Qed.

Lemma first_mint_after_construction_witness :
  fst (mint [ArgString "X"; ArgU64 3]
         (snd (constructor Suite.ctx
                 [ArgString "N"; ArgString "S"; ArgU64 9; ArgString "u/"] Scenario.minted)))
  = Ok tt /\
  readCounter
    (snd (mint [ArgString "X"; ArgU64 3]
            (snd (constructor Suite.ctx
                    [ArgString "N"; ArgString "S"; ArgU64 9; ArgString "u/"] Scenario.minted))))
  = 1 /\
  readBalance "X" 1
    (snd (mint [ArgString "X"; ArgU64 3]
            (snd (constructor Suite.ctx
                    [ArgString "N"; ArgString "S"; ArgU64 9; ArgString "u/"] Scenario.minted))))
  = (readBalance "X" 1 Scenario.minted + 3) mod U64_MODULUS.
Proof.
  apply (first_mint_after_construction Suite.ctx "N" "S" 9 "u/" "X" 3 Scenario.minted).
  - reflexivity.
  - vm_compute. reflexivity.
Defined.
